(** * cadastral-scraper: a model of [scraperdb.py] and its properties

    The development follows the source file top-down:

    - [Py]        the Python values that [response.json()] can return, with
                  the handful of operations the scraper applies to them
                  ([.get], indexing, iteration, truthiness) and the
                  exceptions those operations raise;
    - [Sqlite]    the [parcels] table of [CadastralDatabase], statements run
                  inside [with self.conn:] and the three queries;
    - [Scraper]   [FastCadastralScraper]: [get_parcel_info], [process_batch]
                  and the loop of [scrape_range], written in a state and
                  exception monad over the scraper object and its I/O trace;
    - [Limiter]   the interleavings of the fetch tasks around
                  [asyncio.Semaphore(1000)];
    - [Main]      [main].

    The properties are stated after the definitions. *)

From Stdlib Require Import ZArith String List Floats.SpecFloat Lia.
From stdpp Require Import gmap strings list fin_maps list_numbers.

Set Warnings "-register-all".
Local Open Scope Z_scope.

(* ===================================================================== *)
(** * Python values and exceptions *)
(* ===================================================================== *)

Module Py.

(** What [json.loads] builds: [None], [bool], [int], [float], [str], [list]
    and [dict] with string keys.  Floats are IEEE binary64 data, [nan] and
    the infinities included ([json.loads] reads [NaN] and [Infinity]).  A
    [str] is held as the bytes of its UTF-8 encoding; a lone surrogate,
    which an escape such as [\ud800] decodes to, is held as the three
    bytes ED A0..BF 80..BF that the [surrogatepass] handler gives it. *)
Inductive pyval : Type :=
| PNone
| PBool (b : bool)
| PInt (z : Z)
| PFloat (f : spec_float)
| PStr (s : string)
| PList (l : list pyval)
| PDict (d : gmap string pyval).

(** The [Exception] subclasses that occur in the program. *)
Inductive exn : Type :=
| AttributeError
| TypeError
| KeyError
| IndexError
| ValueError
| UnicodeEncodeError
| ZeroDivisionError
| OverflowError
| ClientError (reason : string)     (* aiohttp.ClientError, asyncio.TimeoutError *)
| DecodeError (reason : string)     (* json.JSONDecodeError, ContentTypeError *)
| DatabaseError (reason : string).  (* sqlite3.Error *)

(** A computation either returns or raises. *)
Inductive result (A : Type) : Type :=
| Return (a : A)
| Raise (e : exn).
Arguments Return {A} a.
Arguments Raise {A} e.

#[global] Instance result_ret : MRet result := λ A a, Return a.
#[global] Instance result_bind : MBind result := λ A B f r,
  match r with
  | Return a => f a
  | Raise e => Raise e
  end.

Definition raised {A} (r : result A) : Prop :=
  match r with Return _ => False | Raise _ => True end.

(** [bool(v)] *)
Definition truthy (v : pyval) : bool :=
  match v with
  | PNone => false
  | PBool b => b
  | PInt z => negb (z =? 0)
  | PFloat (S754_zero _) => false
  | PFloat _ => true
  | PStr s => negb (String.eqb s "")
  | PList l => match l with [] => false | _ :: _ => true end
  | PDict d => negb (bool_decide (d = ∅))
  end.

(** [v.get(key)]: only dictionaries have the method. *)
Definition py_get (v : pyval) (key : string) : result pyval :=
  match v with
  | PDict d => Return (default PNone (d !! key))
  | _ => Raise AttributeError
  end.

(** [v[key]] for a string key. *)
Definition py_getitem (v : pyval) (key : string) : result pyval :=
  match v with
  | PDict d => match d !! key with
               | Some x => Return x
               | None => Raise KeyError
               end
  | _ => Raise TypeError
  end.

(** A byte of the form 10xxxxxx continues the character that the bytes
    before it began. *)
Definition is_continuation (c : Ascii.ascii) : bool :=
  let n := Ascii.N_of_ascii c in ((128 <=? n) && (n <? 192))%N.

(** The characters of a [str] whose first character begins with the bytes
    [cur] and goes on in [s]. *)
Fixpoint split_chars (cur : string) (s : string) : list string :=
  match s with
  | EmptyString => [cur]
  | String c s' =>
      if is_continuation c then split_chars (cur +:+ String c EmptyString) s'
      else cur :: split_chars (String c EmptyString) s'
  end.

(** The characters of a [str], each one a [str] of length 1. *)
Definition chars (s : string) : list pyval :=
  match s with
  | EmptyString => []
  | String c s' => PStr <$> split_chars (String c EmptyString) s'
  end.

(** Whether a [str] holds a surrogate, U+D800 to U+DFFF: the byte ED
    followed by a byte from A0 on. *)
Fixpoint has_surrogate (s : string) : bool :=
  match s with
  | EmptyString => false
  | String c s' =>
      match s' with
      | String c' _ =>
          ((Ascii.N_of_ascii c =? 237) && (160 <=? Ascii.N_of_ascii c'))%N
      | EmptyString => false
      end
      || has_surrogate s'
  end.

(** [v[0]].  A dictionary decoded from JSON has string keys only, so the
    integer key is never present. *)
Definition py_index0 (v : pyval) : result pyval :=
  match v with
  | PList (x :: _) => Return x
  | PList [] => Raise IndexError
  | PStr s => match chars s with
              | x :: _ => Return x
              | [] => Raise IndexError
              end
  | PDict _ => Raise KeyError
  | _ => Raise TypeError
  end.

(** [for x in v]: the elements in iteration order. *)
Definition py_iter (v : pyval) : result (list pyval) :=
  match v with
  | PList l => Return l
  | PStr s => Return (chars s)
  | PDict d => Return (PStr <$> (map_to_list d).*1)
  | _ => Raise TypeError
  end.

End Py.
Import Py.

(** The dictionary that [get_parcel_info] builds and [insert_many] binds
    by name: always the same eight keys, any decoded value under each. *)
Record parcel_data : Type := ParcelData {
  parcel_id : pyval;
  municipality_name : pyval;
  parcel_number : pyval;
  address : pyval;
  area : pyval;
  owner_name : pyval;
  owner_ownership : pyval;
  owner_address : pyval
}.

(* ===================================================================== *)
(** * CadastralDatabase *)
(* ===================================================================== *)

Module Sqlite.

Inductive sqlval : Type :=
| SNull
| SInt (z : Z)
| SReal (f : spec_float)
| SText (s : string).

(** One row of [parcels].  [parcel_id INTEGER PRIMARY KEY] is the rowid;
    [created_at] is filled by [DEFAULT CURRENT_TIMESTAMP]. *)
Record row : Type := Row {
  row_parcel_id : Z;
  row_municipality_name : sqlval;
  row_parcel_number : sqlval;
  row_address : sqlval;
  row_area : sqlval;
  row_owner_name : sqlval;
  row_owner_ownership : sqlval;
  row_owner_address : sqlval;
  row_created_at : Z
}.

(** The table is kept as the list of its rows, so that uniqueness of the
    key is a property to be established and not one of the data type. *)
Abbreviation table := (list row).

Definition keys (t : table) : list Z := row_parcel_id <$> t.

(** What the engine does outside of this repository: the conversion a
    column of TEXT or REAL affinity applies to a stored value, the integer
    (if any) that the primary key accepts for a REAL or TEXT value, and the
    candidate rowid tried when the largest rowid is already the largest
    integer. *)
Class Engine : Type := {
  text_affinity : sqlval → sqlval;
  real_affinity : sqlval → sqlval;
  rowid_of_value : sqlval → option Z;
  random_rowid : list Z → Z
}.

(** What the surroundings decide while a call of [executemany] runs: the
    value of [CURRENT_TIMESTAMP] at the i-th statement and whether the
    engine reports an error (disk full, database locked) there. *)
Record stmt_env : Type := StmtEnv {
  now : nat → Z;
  fault : nat → option string
}.

Definition min_int64 : Z := - 2 ^ 63.
Definition max_int64 : Z := 2 ^ 63 - 1.

(** The sqlite3 adapter for one bound parameter: an [int] must fit in 64
    bits, a [str] is encoded as UTF-8, which a surrogate does not survive,
    and the engine takes a [nan] for NULL. *)
Definition bind_param (v : pyval) : result sqlval :=
  match v with
  | PNone => Return SNull
  | PBool b => Return (SInt (if b then 1 else 0))
  | PInt z =>
      if (min_int64 <=? z) && (z <=? max_int64) then Return (SInt z)
      else Raise OverflowError
  | PFloat S754_nan => Return SNull
  | PFloat f => Return (SReal f)
  | PStr s =>
      if has_surrogate s then Raise UnicodeEncodeError else Return (SText s)
  | PList _ | PDict _ => Raise (DatabaseError "Error binding parameter")
  end.

(** [MAX(parcel_id)], [MIN(parcel_id)]: NULL on the empty table. *)
Fixpoint max_key (t : table) : option Z :=
  match t with
  | [] => None
  | r :: t' => match max_key t' with
               | None => Some (row_parcel_id r)
               | Some m => Some (Z.max (row_parcel_id r) m)
               end
  end.

Fixpoint min_key (t : table) : option Z :=
  match t with
  | [] => None
  | r :: t' => match min_key t' with
               | None => Some (row_parcel_id r)
               | Some m => Some (Z.min (row_parcel_id r) m)
               end
  end.

Section WithEngine.
Context `{Engine}.

(** The rowid given to a row inserted with a NULL key. *)
Definition new_rowid (t : table) : result Z :=
  match max_key t with
  | None => Return 1
  | Some m =>
      if m <? max_int64 then Return (m + 1)
      else
        let k := random_rowid (keys t) in
        if (0 <? k) && (k <=? max_int64) && bool_decide (k ∉ keys t)
        then Return k
        else Raise (DatabaseError "database or disk is full")
  end.

Definition resolve_rowid (t : table) (v : sqlval) : result Z :=
  match v with
  | SNull => new_rowid t
  | SInt z => Return z
  | _ => match rowid_of_value v with
         | Some z => Return z
         | None => Raise (DatabaseError "datatype mismatch")
         end
  end.

(** REPLACE conflict resolution: the rows that hold the key are deleted
    before the new row goes in. *)
Definition delete_key (k : Z) (t : table) : table :=
  filter (λ r, row_parcel_id r ≠ k) t.

(** One execution of
    [INSERT OR REPLACE INTO parcels (parcel_id, ..., owner_address)
     VALUES (:parcel_id, ..., :owner_address)]. *)
Definition insert_or_replace (ts : Z) (t : table) (params : parcel_data)
  : result table :=
  v_id ← bind_param (parcel_id params);
  v_mun ← bind_param (municipality_name params);
  v_num ← bind_param (parcel_number params);
  v_addr ← bind_param (address params);
  v_area ← bind_param (area params);
  v_oname ← bind_param (owner_name params);
  v_oown ← bind_param (owner_ownership params);
  v_oaddr ← bind_param (owner_address params);
  k ← resolve_rowid t v_id;
  Return (delete_key k t ++
          [Row k (text_affinity v_mun) (text_affinity v_num)
               (text_affinity v_addr) (real_affinity v_area)
               (text_affinity v_oname) (text_affinity v_oown)
               (text_affinity v_oaddr) ts]).

(** [conn.executemany(sql, records)]: the statement runs once per record,
    in order, and stops at the first error.  The table as the statements
    left it is returned in both cases; [i] is the index of the next
    statement. *)
Fixpoint executemany (env : stmt_env) (i : nat) (t : table)
    (records : list parcel_data) : table * result unit :=
  match records with
  | [] => (t, Return tt)
  | params :: rest =>
      match fault env i with
      | Some reason => (t, Raise (DatabaseError reason))
      | None =>
          match insert_or_replace (now env i) t params with
          | Raise e => (t, Raise e)
          | Return t' => executemany env (S i) t' rest
          end
      end
  end.

(** [insert_many]: the statements run inside [with self.conn:], which
    commits when the block ends normally and rolls the transaction back,
    letting the exception through, when it raises. *)
Definition insert_many (env : stmt_env) (t : table)
    (records : list parcel_data) : table * result unit :=
  let snapshot := t in
  match executemany env 0 t records with
  | (t', Return _) => (t', Return tt)
  | (_, Raise e) => (snapshot, Raise e)
  end.

End WithEngine.

Definition get_last_id (t : table) : option Z := max_key t.

Record stats : Type := Stats {
  count : nat;
  min_id : option Z;
  max_id : option Z
}.

Definition get_stats (t : table) : stats :=
  Stats (length t) (min_key t) (max_key t).

(** [create_tables]: [CREATE TABLE IF NOT EXISTS] keeps an existing table
    and creates an empty one otherwise. *)
Definition create_tables (existing : option table) : table :=
  default [] existing.

End Sqlite.

(* ===================================================================== *)
(** * FastCadastralScraper *)
(* ===================================================================== *)

Module Scraper.
Import Sqlite.

(** ** The surroundings *)

(** The float arithmetic of the host on time stamps and durations. *)
Class FloatArith (F : Type) : Type := {
  fsub : F → F → F;          (* x - y *)
  fmul : F → F → F;          (* x * y *)
  fsum : list F → F;         (* sum(xs) *)
  fdiv_int : F → Z → F;      (* x / n, n an int other than 0 *)
  fmul_int : F → Z → F;      (* x * n, n an int *)
  truediv : Z → Z → F;       (* a / b on ints, b other than 0 *)
  ftrunc : F → result Z      (* int(x) *)
}.

(** What one HTTP exchange does: [session.get] raises, or answers with a
    status; [response.json()] then raises or returns the decoded body. *)
Inductive json_outcome : Type :=
| JsonRaises (e : exn)
| JsonValue (content : pyval).

Inductive http_outcome : Type :=
| GetRaises (e : exn)
| Response (status : Z) (json : json_outcome).

(** The requests answered by identifier ([params = {'parcelId': id}]). *)
Definition session : Type := Z → http_outcome.

(** ** State *)

(** The attributes that [__init__] sets and the methods use. *)
Record FastCadastralScraper : Type := Self {
  batch_size : Z;
  db : table;
  successful_requests : nat;
  failed_requests : nat
}.

Section WithFloats.
Context {F : Type}.

Inductive line : Type :=
| StartingFrom (current : Z)
| Progress (current end_id : Z) (percent : F) (records : nat) (eta : Z)
| SuccessRate (rate : F) (successful failed : nat)
| ErrorInBatch (current : Z) (e : exn).

(** What the process does to the outside, in order. *)
Inductive event : Type :=
| Get (id : Z)
| Print (l : line)
| Sleep (seconds : Z).

(** The scraper object, the two variables of [scrape_range] that its loop
    updates, and the trace. *)
Record machine : Type := Machine {
  self : FastCadastralScraper;
  current_id : Z;
  batch_durations : list F;
  trace : list event
}.

(** Computations over the machine that return or raise. *)
Definition M (A : Type) : Type := machine → machine * result A.

#[global] Instance M_ret : MRet M := λ A a m, (m, Return a).
#[global] Instance M_bind : MBind M := λ A B f c m,
  match c m with
  | (m', Return a) => f a m'
  | (m', Raise e) => (m', Raise e)
  end.

Definition gets {A} (f : machine → A) : M A := λ m, (m, Return (f m)).
Definition modify (f : machine → machine) : M unit := λ m, (f m, Return tt).
Definition lift {A} (r : result A) : M A := λ m, (m, r).
Definition emit (e : event) : M unit :=
  modify (λ m, Machine (self m) (current_id m) (batch_durations m)
                       (trace m ++ [e])).

(** [try: body except Exception as e: handler e] *)
Definition try_except {A} (body : M A) (handler : exn → M A) : M A := λ m,
  match body m with
  | (m', Return a) => (m', Return a)
  | (m', Raise e) => handler e m'
  end.

Definition set_self (f : FastCadastralScraper → FastCadastralScraper)
  : M unit :=
  modify (λ m, Machine (f (self m)) (current_id m) (batch_durations m)
                       (trace m)).

Definition set_current_id (c : Z) : M unit :=
  modify (λ m, Machine (self m) c (batch_durations m) (trace m)).

Definition set_batch_durations (ds : list F) : M unit :=
  modify (λ m, Machine (self m) (current_id m) ds (trace m)).

(** [self.successful_requests += 1], [self.failed_requests += 1] *)
Definition incr_successful : M unit :=
  set_self (λ s, Self (batch_size s) (db s) (S (successful_requests s))
                      (failed_requests s)).

Definition incr_failed : M unit :=
  set_self (λ s, Self (batch_size s) (db s) (successful_requests s)
                      (S (failed_requests s))).

(** ** get_parcel_info *)

(** [session.get(self.base_url, params={'parcelId': parcel_id})] *)
Definition session_get (sess : session) (id : Z) : M (Z * json_outcome) :=
  emit (Get id);;
  match sess id with
  | GetRaises e => lift (Raise e)
  | Response status body => mret (status, body)
  end.

(** [await response.json()] *)
Definition response_json (body : json_outcome) : M pyval :=
  match body with
  | JsonRaises e => lift (Raise e)
  | JsonValue content => mret content
  end.

(** The dictionary literal of lines 84-93. *)
Definition initial_data (content : pyval) : result parcel_data :=
  v_id ← py_get content "parcelId";
  v_mun ← py_get content "cadMunicipalityName";
  v_num ← py_get content "parcelNumber";
  v_addr ← py_get content "address";
  v_area ← py_get content "area";
  mret (ParcelData v_id v_mun v_num v_addr v_area PNone PNone PNone).

(** [data.update({'owner_name': ..., 'owner_ownership': ...,
    'owner_address': ...})] *)
Definition update_owner (data : parcel_data) (n o a : pyval) : parcel_data :=
  ParcelData (parcel_id data) (municipality_name data) (parcel_number data)
             (address data) (area data) n o a.

(** The [for sheet in ...] loop of lines 96-104, [break] included. *)
Fixpoint scan_sheets (sheets : list pyval) (data : parcel_data)
  : result parcel_data :=
  match sheets with
  | [] => mret data
  | sheet :: rest =>
      ps ← py_get sheet "possessors";
      if truthy ps then
        ps' ← py_getitem sheet "possessors";
        possessor ← py_index0 ps';
        n ← py_get possessor "name";
        o ← py_get possessor "ownership";
        a ← py_get possessor "address";
        mret (update_owner data n o a)
      else scan_sheets rest data
  end.

(** Lines 95-105. *)
Definition fill_owner (content : pyval) (data : parcel_data)
  : result parcel_data :=
  sheets_v ← py_get content "possessionSheets";
  if truthy sheets_v then
    sheets_obj ← py_getitem content "possessionSheets";
    sheets ← py_iter sheets_obj;
    scan_sheets sheets data
  else mret data.

(** The block under [try:], lines 72-105. *)
Definition get_parcel_info_body (sess : session) (id : Z)
  : M (option parcel_data) :=
  '(status, body) ← session_get sess id;
  if negb (status =? 200) then
    incr_failed;;
    mret None
  else
    content ← response_json body;
    incr_successful;;
    if negb (truthy content) then mret None
    else
      data ← lift (initial_data content);
      data ← lift (fill_owner content data);
      mret (Some data).

(** [get_parcel_info], as run by a task that holds a slot of the semaphore
    (see [Limiter] for the acquisition and the release). *)
Definition get_parcel_info (sess : session) (id : Z)
  : M (option parcel_data) :=
  try_except (get_parcel_info_body sess id)
             (λ _, incr_failed;; mret None).

(** ** process_batch *)

(** [await asyncio.gather] over the tasks: the results in task order;
    the first exception, if any, is let through. *)
Fixpoint gather {A} (tasks : list (M A)) : M (list A) :=
  match tasks with
  | [] => mret []
  | task :: rest =>
      r ← task;
      rs ← gather rest;
      mret (r :: rs)
  end.

(** [range(self.batch_size)] shifted by [start_id]. *)
Definition batch_ids (bs start_id : Z) : list Z :=
  (λ i, start_id + i) <$> seqZ 0 bs.

Definition process_batch (sess : session) (start_id : Z)
  : M (list parcel_data) :=
  bs ← gets (λ m, batch_size (self m));
  results ← gather (get_parcel_info sess <$> batch_ids bs start_id);
  mret (omap id results).

(** ** scrape_range *)

Context `{!Engine} `{!FloatArith F}.

(** What the surroundings decide during one pass through the loop: the
    answers of the remote service, the two readings of [time.time()]
    (lines 127 and 143) and what happens inside the database call. *)
Record batch_env : Type := BatchEnv {
  sess : session;
  batch_start_time : F;
  batch_end_time : F;
  stmts : stmt_env
}.

(** [a / b] on ints. *)
Definition py_truediv (a b : Z) : result F :=
  if b =? 0 then Raise ZeroDivisionError else Return (truediv a b).

(** [a % b] on ints: the sign of the divisor, as [Z.modulo]. *)
Definition py_mod (a b : Z) : result Z :=
  if b =? 0 then Raise ZeroDivisionError else Return (a `mod` b).

(** [timedelta(seconds=n)] for an int [n], kept as its number of seconds:
    the day count must stay within 999999999 days. *)
Definition timedelta (n : Z) : result Z :=
  if Z.abs (n `div` 86400) <=? 999999999 then Return n
  else Raise OverflowError.

(** [self.db.insert_many(records)] *)
Definition db_insert_many (env : stmt_env) (records : list parcel_data)
  : M unit := λ m,
  let s := self m in
  let '(t', r) := insert_many env (db s) records in
  (Machine (Self (batch_size s) t' (successful_requests s)
                 (failed_requests s))
           (current_id m) (batch_durations m) (trace m), r).

(** Lines 131-136. *)
Definition report_progress (start_id end_id : Z) (remaining_batches : F)
  : M unit :=
  ds ← gets batch_durations;
  match ds with
  | [] => mret tt
  | _ :: _ =>
      let avg_duration := fdiv_int (fsum ds) (Z.of_nat (length ds)) in
      let eta_seconds := fmul avg_duration remaining_batches in
      secs ← lift (ftrunc eta_seconds);
      eta ← lift (timedelta secs);
      stats ← gets (λ m, get_stats (db (self m)));
      cur ← gets current_id;
      frac ← lift (py_truediv (cur - start_id) (end_id - start_id));
      emit (Print (Progress cur end_id (fmul_int frac 100) (count stats) eta))
  end.

(** Lines 148-150. *)
Definition report_success_rate : M unit :=
  s ← gets self;
  let ok := Z.of_nat (successful_requests s) in
  let ko := Z.of_nat (failed_requests s) in
  r ← lift (py_mod ok (batch_size s));
  if r =? 0 then
    frac ← lift (py_truediv ok (ok + ko));
    emit (Print (SuccessRate (fmul_int frac 100) (successful_requests s)
                             (failed_requests s)))
  else mret tt.

(** The block under [try:], lines 139-150.  [batch_durations] is a list
    that is changed in place, so the change stays when a later line
    raises. *)
Definition try_block (env : batch_env) : M unit :=
  cur ← gets current_id;
  batch_results ← process_batch (sess env) cur;
  match batch_results with
  | [] => mret tt
  | _ :: _ => db_insert_many (stmts env) batch_results
  end;;
  let batch_duration := fsub (batch_end_time env) (batch_start_time env) in
  ds ← gets batch_durations;
  set_batch_durations (ds ++ [batch_duration]);;
  ds ← gets batch_durations;
  (if (50 <? length ds)%nat then set_batch_durations (tail ds) else mret tt);;
  report_success_rate.

(** How the [try] statement leaves: on to line 157, or [continue]. *)
Inductive flow : Type := Next | Continue.

(** Lines 127-136: what a pass does before it enters [try]. *)
Definition loop_head (start_id end_id : Z) : M unit :=
  cur ← gets current_id;
  let remaining_ids := end_id - cur in
  bs ← gets (λ m, batch_size (self m));
  remaining_batches ← lift (py_truediv remaining_ids bs);
  report_progress start_id end_id remaining_batches.

(** Lines 152-155. *)
Definition except_block (e : exn) : M flow :=
  cur ← gets current_id;
  emit (Print (ErrorInBatch cur e));;
  emit (Sleep 60);;
  mret Continue.

(** One pass through the body of [while current_id < end_id], lines
    127-157. *)
Definition loop_body (start_id end_id : Z) (env : batch_env) : M unit :=
  loop_head start_id end_id;;
  fl ← try_except (try_block env;; mret Next) except_block;
  match fl with
  | Continue => mret tt
  | Next =>
      cur ← gets current_id;
      bs ← gets (λ m, batch_size (self m));
      set_current_id (cur + bs)
  end.

(** Whether the loop has been left or would go through its body again. *)
Inductive loop_status : Type := Exited | Pending.

(** The [while] loop, run for as many passes as [envs] describes. *)
Fixpoint scrape_loop (start_id end_id : Z) (envs : list batch_env)
  : M loop_status :=
  match envs with
  | [] =>
      cur ← gets current_id;
      mret (if cur <? end_id then Pending else Exited)
  | env :: rest =>
      cur ← gets current_id;
      if cur <? end_id then
        loop_body start_id end_id env;;
        scrape_loop start_id end_id rest
      else mret Exited
  end.

(** [last_id + 1 if last_id else start_id] *)
Definition resume_point (last_id : option Z) (start_id : Z) : Z :=
  match last_id with
  | Some l => if negb (l =? 0) then l + 1 else start_id
  | None => start_id
  end.

Definition scrape_range (start_id end_id : Z) (envs : list batch_env)
  : M loop_status :=
  last_id ← gets (λ m, get_last_id (db (self m)));
  let cur := resume_point last_id start_id in
  set_current_id cur;;
  emit (Print (StartingFrom cur));;
  set_batch_durations [];;
  scrape_loop start_id end_id envs.

End WithFloats.
Arguments line : clear implicits.
Arguments event : clear implicits.
Arguments machine : clear implicits.
Arguments M : clear implicits.
Arguments batch_env : clear implicits.

(** [FastCadastralScraper()]: [CadastralDatabase()] opens the file and
    creates the table if it is missing. *)
Definition init (existing : option table) : FastCadastralScraper :=
  Self 10000 (create_tables existing) 0 0.

(** The machine as [scrape_range] is entered: nothing done yet; the two
    loop variables get their values in [scrape_range]. *)
Definition boot {F} (s : FastCadastralScraper) : machine F :=
  Machine s 0 [] [].

End Scraper.

(* ===================================================================== *)
(** * The semaphore around get_parcel_info *)
(* ===================================================================== *)

Module Limiter.
Import Scraper.

(** Where a task created by [process_batch] stands: before
    [async with self.semaphore], inside it (the exchange is under way), or
    past it with what [get_parcel_info] gave. *)
Inductive pc : Type :=
| Waiting (id : Z)
| Holding (id : Z)
| Finished (r : result (option parcel_data)).

(** [asyncio.Semaphore(1000)] *)
Definition ceiling : nat := 1000.

Section WithFloats.
Context {F : Type}.

(** The counter of the semaphore, the tasks of the batch, and the machine
    they share. *)
Record pool : Type := Pool {
  value : nat;
  tasks : list pc;
  shared : machine F
}.

Definition is_holding (p : pc) : bool :=
  match p with Holding _ => true | _ => false end.

(** The fetches that are outstanding: slot acquired and not yet released. *)
Definition outstanding (ts : list pc) : nat :=
  length (filter (λ p, is_holding p = true) ts).

(** The event loop runs one task up to its next suspension point.
    [acquire] passes only when the counter is positive and takes one from
    it; leaving the [async with] block, by return or by exception, gives
    one back. *)
Inductive step (sess : session) : pool → pool → Prop :=
| step_acquire i id v ts m :
    ts !! i = Some (Waiting id) →
    step sess (Pool (S v) ts m) (Pool v (<[i := Holding id]> ts) m)
| step_release i id v ts m m' r :
    ts !! i = Some (Holding id) →
    get_parcel_info sess id m = (m', r) →
    step sess (Pool v ts m) (Pool (S v) (<[i := Finished r]> ts) m').

(** [process_batch] creates the tasks; none has run yet. *)
Definition spawn (ids : list Z) (m : machine F) : pool :=
  Pool ceiling (Waiting <$> ids) m.

Definition reachable (sess : session) (ids : list Z) (m : machine F)
    (p : pool) : Prop :=
  rtc (step sess) (spawn ids m) p.

End WithFloats.
Arguments pool : clear implicits.

End Limiter.

(* ===================================================================== *)
(** * main *)
(* ===================================================================== *)

Module Main.
Import Sqlite Scraper.

Section WithFloats.
Context `{!Engine} {F : Type} `{!FloatArith F}.

(** What [main] does to the outside: what [scrape_range] did, the line of
    the [except] clause, and [scraper.close()]. *)
Inductive action : Type :=
| Ran (e : event F)
| PrintFatal (e : exn)
| Close.

Definition start_id : Z := 5625555.
Definition end_id : Z := 40150506.

(** [main()] over the database file as it is found, for a run of
    [scrape_range] that comes to its end within the passes given: what was
    done, and the table left behind.  [None] while the loop is still
    going. *)
Definition main (existing : option table) (envs : list (batch_env F))
  : option (list action * table) :=
  let scraper := init existing in
  match scrape_range start_id end_id envs (boot scraper) with
  | (m, Return Exited) => Some ((Ran <$> trace m) ++ [Close], db (self m))
  | (m, Return Pending) => None
  | (m, Raise e) =>
      Some ((Ran <$> trace m) ++ [PrintFatal e; Close], db (self m))
  end.

End WithFloats.
Arguments action : clear implicits.

End Main.

(* ===================================================================== *)
(** * Instances used to run the model on examples *)
(* ===================================================================== *)

Module Examples.
Import Sqlite Scraper.

(** An engine that stores values as bound, takes only integers as keys and
    proposes rowid 1 when it has to pick one. *)
#[export] Instance plain_engine : Engine := {|
  text_affinity := id;
  real_affinity := id;
  rowid_of_value := λ _, None;
  random_rowid := λ _, 1
|}.

(** Time in whole seconds. *)
#[export] Instance whole_seconds : FloatArith Z := {|
  fsub := Z.sub;
  fmul := Z.mul;
  fsum := foldr Z.add 0;
  fdiv_int := Z.div;
  fmul_int := Z.mul;
  truediv := Z.div;
  ftrunc := Return
|}.

Definition quiet : stmt_env := StmtEnv (λ _, 0) (λ _, None).

(** A body with the given [parcelId] and nothing else. *)
Definition body_with_id (k : Z) : pyval :=
  PDict (<["parcelId" := PInt k]> ∅).

Definition possessor (name : string) : pyval :=
  PDict (<["name" := PStr name]> (<["ownership" := PStr "1/1"]>
        (<["address" := PStr "Zagreb"]> ∅))).

Definition sheet (possessors : list pyval) : pyval :=
  PDict (<["possessors" := PList possessors]> ∅).

Definition plain (k : Z) : parcel_data :=
  ParcelData (PInt k) PNone PNone PNone PNone PNone PNone PNone.

Definition at_address (k : Z) (a : string) : parcel_data :=
  ParcelData (PInt k) PNone PNone (PStr a) PNone PNone PNone PNone.

Definition answers_all : session :=
  λ id, Response 200 (JsonValue (body_with_id id)).

(** A table that holds parcel 5 only. *)
Definition five : table := [Row 5 SNull SNull SNull SNull SNull SNull SNull 0].

(** A pass in which every request is answered and that lasts 7 seconds. *)
Definition calm : batch_env Z := BatchEnv answers_all 10 17 quiet.

(** A remote service whose bodies carry a list as [address], which the
    database adapter cannot bind. *)
Definition unbindable : session :=
  λ id, Response 200 (JsonValue (PDict (<["parcelId" := PInt id]>
                                        (<["address" := PList []]> ∅)))).

Definition stormy : batch_env Z := BatchEnv unbindable 10 17 quiet.

(** A remote service that answers every request with parcel 1000. *)
Definition elsewhere : session :=
  λ _, Response 200 (JsonValue (body_with_id 1000)).

End Examples.

(** Further bodies, records and runs for the examples. *)
Module MoreExamples.
Import Sqlite Scraper Examples.

(** A body with an address and no sheets. *)
Definition addressed : gmap string pyval :=
  <["parcelId" := PInt 7]> (<["address" := PStr "Ilica 1"]> ∅).

(** A body whose [possessionSheets] is a string. *)
Definition sheets_as_text : gmap string pyval :=
  <["parcelId" := PInt 7]> (<["possessionSheets" := PStr "none"]> ∅).

(** A record without [parcel_id]. *)
Definition nameless : parcel_data :=
  ParcelData PNone PNone PNone (PStr "Ilica 1") PNone PNone PNone PNone.

(** A record whose address is a list. *)
Definition listed : parcel_data :=
  ParcelData (PInt 2) PNone PNone (PList []) PNone PNone PNone PNone.

(** A table whose largest key is the last identifier that [main] scans. *)
Definition complete : table :=
  [Row 40150505 SNull SNull SNull SNull SNull SNull SNull 0].

(** A table that lacks the last identifier that [main] scans. *)
Definition almost_complete : table :=
  [Row 40150504 SNull SNull SNull SNull SNull SNull SNull 0].

(** A remote service that knows parcel 7 and answers 404 for the others. *)
Definition only_seven : session :=
  λ id, if id =? 7 then Response 200 (JsonValue (body_with_id 7))
        else Response 404 (JsonValue PNone).

(** A pass in which no parcel is found and during which the clock of the
    host jumps by 10^12 seconds. *)
Definition clock_jump : batch_env Z :=
  BatchEnv (λ _, Response 404 (JsonValue PNone)) 0 (10 ^ 12) quiet.

End MoreExamples.

(* ===================================================================== *)
(** * Vocabulary of the properties *)
(* ===================================================================== *)

Import Sqlite Scraper.
Set Warnings "-clear-no-such-hyp".

(** Unfolds the monadic plumbing and the record projections, leaving the
    tests of the code in the goal. *)
Ltac run_M :=
  cbv beta iota zeta delta
    [mbind mret M_bind M_ret emit modify gets lift set_self set_current_id
     set_batch_durations incr_failed incr_successful response_json
     session_get try_except get_parcel_info get_parcel_info_body
     self current_id batch_durations trace batch_size db
     successful_requests failed_requests fst snd].

Ltac run_result :=
  cbv beta iota zeta delta [mbind mret result_bind result_ret].

(** ** Fetching *)

(** The ways of the specification for a fetch to come back empty: a
    status other than 200, a falsy body, an exception of the transport
    ([session.get] raises, or [response.json()] does on a payload that is
    not JSON). *)
Definition non_success (o : http_outcome) : Prop :=
  ∃ st body, o = Response st body ∧ st ≠ 200.

Definition empty_body (o : http_outcome) : Prop :=
  ∃ content, o = Response 200 (JsonValue content) ∧ truthy content = false.

Definition transport_error (o : http_outcome) : Prop :=
  (∃ e, o = GetRaises e) ∨ (∃ e, o = Response 200 (JsonRaises e)).

(** A body from which a record can be read.  It is an object.  Its
    [possessionSheets] entry is missing or falsy, or it is a list in which
    the sheets are objects up to the first one whose [possessors] entry is
    truthy, if there is one, and that entry is a list that begins with an
    object. *)
Definition first_is_object (ps : pyval) : bool :=
  match ps with
  | PList (PDict _ :: _) => true
  | _ => false
  end.

Fixpoint sheets_readable (sheets : list pyval) : bool :=
  match sheets with
  | [] => true
  | PDict d :: rest =>
      let ps := default PNone (d !! "possessors") in
      if truthy ps then first_is_object ps else sheets_readable rest
  | _ :: _ => false
  end.

Definition readable (content : pyval) : bool :=
  match content with
  | PDict c =>
      match default PNone (c !! "possessionSheets") with
      | PList sheets => sheets_readable sheets
      | v => negb (truthy v)
      end
  | _ => false
  end.

(** The fourth way: the body was decoded and is truthy, and no record can
    be read from it. *)
Definition unreadable_body (o : http_outcome) : Prop :=
  ∃ content, o = Response 200 (JsonValue content) ∧ truthy content = true
             ∧ readable content = false.

(** The possessors that a sheet lists, when it is an object whose
    [possessors] entry is a list. *)
Definition possessors_of (sheet : pyval) : list pyval :=
  match sheet with
  | PDict d => match d !! "possessors" with
               | Some (PList ps) => ps
               | _ => []
               end
  | _ => []
  end.

(** The owner as the specification words it: the first possessor of the
    first sheet, in source order, whose possessor list is not empty. *)
Fixpoint spec_owner (sheets : list pyval) : option pyval :=
  match sheets with
  | [] => None
  | sheet :: rest =>
      match possessors_of sheet with
      | p :: _ => Some p
      | [] => spec_owner rest
      end
  end.

(** The three owner fields of [d] are those of the possessor, or all
    [None] when there is no possessor. *)
Definition owner_matches (o : option pyval) (d : parcel_data) : Prop :=
  match o with
  | Some p => py_get p "name" = Return (owner_name d)
              ∧ py_get p "ownership" = Return (owner_ownership d)
              ∧ py_get p "address" = Return (owner_address d)
  | None => owner_name d = PNone ∧ owner_ownership d = PNone
            ∧ owner_address d = PNone
  end.

Definition is_dict (v : pyval) : bool :=
  match v with PDict _ => true | _ => false end.

(** A sheet of the documented shape: an object whose [possessors] entry is
    missing, null or a list of objects. *)
Definition wf_sheet (sheet : pyval) : bool :=
  match sheet with
  | PDict d => match d !! "possessors" with
               | None | Some PNone => true
               | Some (PList ps) => forallb is_dict ps
               | Some _ => false
               end
  | _ => false
  end.

(** The machine after some fetches: counters raised, events appended. *)
Definition bump {F} (a b : nat) (es : list (event F)) (m : machine F)
  : machine F :=
  Machine (Self (batch_size (self m)) (db (self m))
                (a + successful_requests (self m))
                (b + failed_requests (self m)))
          (current_id m) (batch_durations m) (trace m ++ es).

(** The identifiers requested so far, in order. *)
Definition gets_of {F} (tr : list (event F)) : list Z :=
  omap (λ e, match e with Get id => Some id | _ => None end) tr.

(** ** Storing *)

(** The row that a record becomes under key [k] at time [ts]. *)
Definition row_for `{!Engine} (k ts : Z) (p : parcel_data) : result row :=
  v_mun ← bind_param (municipality_name p);
  v_num ← bind_param (parcel_number p);
  v_addr ← bind_param (address p);
  v_area ← bind_param (area p);
  v_oname ← bind_param (owner_name p);
  v_oown ← bind_param (owner_ownership p);
  v_oaddr ← bind_param (owner_address p);
  mret (Row k (text_affinity v_mun) (text_affinity v_num)
            (text_affinity v_addr) (real_affinity v_area)
            (text_affinity v_oname) (text_affinity v_oown)
            (text_affinity v_oaddr) ts).

(** The key that a record asks for; [None] when it leaves the choice to
    the engine (a NULL [parcel_id]) or cannot be stored. *)
Definition explicit_key `{!Engine} (p : parcel_data) : option Z :=
  match bind_param (parcel_id p) with
  | Return SNull => None
  | Return (SInt z) => Some z
  | Return v => rowid_of_value v
  | Raise _ => None
  end.

(** The rows stored under a key. *)
Definition rows_at (k : Z) (t : table) : list row :=
  filter (λ r, row_parcel_id r = k) t.

(** A call of [insert_many] and the store after a sequence of calls,
    failed ones included. *)
Definition call : Type := stmt_env * list parcel_data.

Definition after_calls `{!Engine} (calls : list call) (t : table) : table :=
  foldl (λ t c, (insert_many c.1 t c.2).1) t calls.



(** ** Scheduling *)

(** The last [n] elements. *)
Definition last_n {A} (n : nat) (hist : list A) : list A :=
  drop (length hist - n) hist.

(** [append] followed by [pop(0)] when the list has grown past 50. *)
Definition slide {A} (ds : list A) (d : A) : list A :=
  if (50 <? length (ds ++ [d]))%nat then tail (ds ++ [d]) else ds ++ [d].

Section Replay.
Context `{!Engine} {F : Type} `{!FloatArith F}.

(** The progress line of a pass that starts in [m] can be printed: there
    is none to print, the window being empty, or the two bounds differ and
    the estimate is a number of seconds that [timedelta] accepts. *)
Definition progress_line_prints (start_id end_id : Z) (m : machine F) : Prop :=
  batch_durations m = []
  ∨ (start_id ≠ end_id
     ∧ ∃ secs,
         ftrunc (fmul (fdiv_int (fsum (batch_durations m))
                                (Z.of_nat (length (batch_durations m))))
                      (truediv (end_id - current_id m) (batch_size (self m))))
         = Return secs
         ∧ Z.abs (secs `div` 86400) ≤ 999999999).

(** The durations of the passes of a run that got to the end of their
    [try] block, in order. *)
Fixpoint completed_durations (start_id end_id : Z) (envs : list (batch_env F))
    (m : machine F) : list F :=
  match envs with
  | [] => []
  | env :: rest =>
      if current_id m <? end_id then
        match loop_head start_id end_id m with
        | (m0, Return _) =>
            match try_block env m0 with
            | (_, Return _) =>
                [fsub (batch_end_time env) (batch_start_time env)]
            | (_, Raise _) => []
            end
            ++ completed_durations start_id end_id rest
                 (loop_body start_id end_id env m).1
        | (_, Raise _) => []
        end
      else []
  end.
End Replay.

(** ** The semaphore *)

Definition is_finished (p : Limiter.pc) : bool :=
  match p with Limiter.Finished _ => true | _ => false end.

(** The fetches that have left the guarded block. *)
Definition finished (ts : list Limiter.pc) : nat :=
  length (filter (λ p, is_finished p = true) ts).

(** ** Further vocabulary *)

(** The two extraction steps of [get_parcel_info] in a row. *)
Definition extract (content : pyval) : result parcel_data :=
  data ← initial_data content;
  fill_owner content data.

(** What a fetch returns for an exchange, and what it adds to
    [successful_requests] and [failed_requests]. *)
Definition fetched (o : http_outcome) : option parcel_data :=
  match o with
  | GetRaises _ => None
  | Response status body =>
      if negb (status =? 200) then None
      else match body with
           | JsonRaises _ => None
           | JsonValue content =>
               if negb (truthy content) then None
               else match extract content with
                    | Return d => Some d
                    | Raise _ => None
                    end
           end
  end.

Definition counted (o : http_outcome) : nat * nat :=
  match o with
  | GetRaises _ => (0, 1)%nat
  | Response status body =>
      if negb (status =? 200) then (0, 1)%nat
      else match body with
           | JsonRaises _ => (0, 1)%nat
           | JsonValue content =>
               if negb (truthy content) then (1, 0)%nat
               else match extract content with
                    | Return _ => (1, 0)%nat
                    | Raise _ => (1, 1)%nat
                    end
           end
  end.

(** The sums of what the exchanges of a batch add to the two counters. *)
Definition counted_all (sess : session) (ids : list Z) : nat * nat :=
  foldr (λ id acc, ((counted (sess id)).1 + acc.1, (counted (sess id)).2 + acc.2)%nat)
        (0, 0)%nat ids.

(** The records of a batch: those of the answered identifiers, in the
    order of the identifiers. *)
Definition batch_records (sess : session) (bs start_id : Z)
  : list parcel_data :=
  omap (λ id, fetched (sess id)) (seqZ start_id bs).

(** The seconds slept so far, in order. *)
Definition sleeps_of {F} (tr : list (event F)) : list Z :=
  omap (λ e, match e with Sleep n => Some n | _ => None end) tr.

(** A value that the database adapter accepts: [None], a [bool], an [int]
    of 64 bits, a [float], a [str] without surrogates. *)
Definition bindable (v : pyval) : bool :=
  match v with
  | PNone | PBool _ | PFloat _ => true
  | PInt z => (min_int64 <=? z) && (z <=? max_int64)
  | PStr s => negb (has_surrogate s)
  | PList _ | PDict _ => false
  end.

(** The fields of a record other than the key. *)
Definition other_fields (p : parcel_data) : list pyval :=
  [municipality_name p; parcel_number p; address p; area p; owner_name p;
   owner_ownership p; owner_address p].

(** The key of a record whose [parcel_id] is an [int] of 64 bits or a
    [bool]. *)
Definition integer_key (p : parcel_data) : option Z :=
  match parcel_id p with
  | PInt z => if (min_int64 <=? z) && (z <=? max_int64) then Some z else None
  | PBool b => Some (if b then 1 else 0)
  | _ => None
  end.

(** A record whose key is an integer and whose other fields can all be
    bound. *)
Definition storable (p : parcel_data) : bool :=
  bool_decide (is_Some (integer_key p)) && forallb bindable (other_fields p).

(** A sheet that is an object without possessors to take: the entry is
    missing or falsy. *)
Definition no_possessors (sheet : pyval) : bool :=
  match sheet with
  | PDict d => negb (truthy (default PNone (d !! "possessors")))
  | _ => false
  end.

Definition is_list (v : pyval) : bool :=
  match v with PList _ => true | _ => false end.

(** A body: the object [c] with the given value under
    [possessionSheets]. *)
Definition with_sheets (c : gmap string pyval) (v : pyval) : pyval :=
  PDict (<["possessionSheets" := v]> c).

(** Where the task that fetches [id] can stand. *)
Definition task_of (sess : session) (id : Z) (t : Limiter.pc) : Prop :=
  t = Limiter.Waiting id ∨ t = Limiter.Holding id
  ∨ t = Limiter.Finished (Return (fetched (sess id))).

(** What the finished tasks of a batch have added to the two counters. *)
Fixpoint tally (sess : session) (ids : list Z) (ts : list Limiter.pc)
  : nat * nat :=
  match ids, ts with
  | id :: ids', t :: ts' =>
      let c := tally sess ids' ts' in
      if is_finished t
      then ((counted (sess id)).1 + c.1, (counted (sess id)).2 + c.2)%nat
      else c
  | _, _ => (0, 0)%nat
  end.

(* ===================================================================== *)
(** * Properties of get_parcel_info *)
(* ===================================================================== *)

Section FetchProperties.
Context {F : Type}.
Implicit Types (m : machine F) (sess : session) (id : Z).

Lemma bump_bump a b es a' b' es' m :
  bump a' b' es' (bump a b es m) = bump (a + a') (b + b') (es ++ es') m.
Proof.
  unfold bump; cbn. rewrite <- app_assoc. f_equal. f_equal; lia.
Qed.

Lemma bump_nothing m : bump 0 0 [] m = m.
Proof. destruct m as [[] ? ? ?]; unfold bump; cbn. by rewrite app_nil_r. Qed.

(** A fetch touches the counters and the trace only, counts at least once
    and does not raise. *)
Lemma get_parcel_info_run sess id m :
  ∃ a b r, get_parcel_info sess id m = (bump a b [Get id] m, Return r)
           ∧ (1 ≤ a + b)%nat.
Proof.
  destruct m as [[bs t ok ko] cur ds tr]; unfold bump; run_M.
  destruct (sess id) as [e | st [e | content]].
  - exists 0%nat, 1%nat, None. split; [done | lia].
  - destruct (st =? 200); cbn [negb];
      exists 0%nat, 1%nat, None; (split; [done | lia]).
  - destruct (st =? 200); cbn [negb];
      [| exists 0%nat, 1%nat, None; (split; [done | lia])].
    destruct (truthy content); cbn [negb];
      [| exists 1%nat, 0%nat, None; (split; [done | lia])].
    destruct (initial_data content) as [d | e];
      [destruct (fill_owner content d) as [d' | e] |].
    + exists 1%nat, 0%nat, (Some d'). split; [done | lia].
    + exists 1%nat, 1%nat, None. split; [done | lia].
    + exists 1%nat, 1%nat, None. split; [done | lia].
Qed.

(** When a record comes back, the exchange was a 200 with a truthy body
    and the record is what the two extraction steps built from it. *)
Lemma get_parcel_info_some sess id m d :
  (get_parcel_info sess id m).2 = Return (Some d) →
  ∃ content data,
    sess id = Response 200 (JsonValue content) ∧ truthy content = true
    ∧ initial_data content = Return data
    ∧ fill_owner content data = Return d.
Proof.
  destruct m as [[bs t ok ko] cur ds tr]; run_M.
  destruct (sess id) as [e | st [e | content]]; [done | |].
  - by destruct (st =? 200).
  - destruct (st =? 200) eqn:Hst; cbn [negb]; [| done].
    apply Z.eqb_eq in Hst as ->.
    destruct (truthy content) eqn:Ht; cbn [negb]; [| done].
    destruct (initial_data content) as [data | e] eqn:Hi; [| done].
    destruct (fill_owner content data) as [d' | e] eqn:Hf; [| done].
    intros [= <-]. by exists content, data.
Qed.

Lemma get_parcel_info_of_body sess id m content data d :
  sess id = Response 200 (JsonValue content) → truthy content = true →
  initial_data content = Return data → fill_owner content data = Return d →
  (get_parcel_info sess id m).2 = Return (Some d).
Proof.
  intros Hs Ht Hi Hf. destruct m as [[bs t ok ko] cur ds tr]; run_M.
  rewrite Hs. cbn. by rewrite Ht, Hi, Hf.
Qed.

(** *** Extraction of the owner *)

(** A [str] that is not empty has a first character. *)
Lemma chars_cons c s : ∃ x l, chars (String c s) = PStr x :: l.
Proof.
  unfold chars. generalize (String c EmptyString).
  induction s as [| c' s IH]; intros cur; cbn [split_chars].
  - by exists cur, [].
  - destruct (is_continuation c'); [apply IH |]. by eexists cur, _.
Qed.

Lemma py_index0_str s :
  py_index0 (PStr s) = Raise IndexError
  ∨ ∃ x, py_index0 (PStr s) = Return (PStr x).
Proof.
  destruct s as [| c s]; [by left |]. right.
  destruct (chars_cons c s) as (x & l & Hx). exists x.
  unfold py_index0. by rewrite Hx.
Qed.

Lemma scan_sheets_owner sheets data d :
  owner_matches None data →
  scan_sheets sheets data = Return d →
  owner_matches (spec_owner sheets) d.
Proof.
  intros Hdata.
  induction sheets as [| sheet rest IH]; cbn [scan_sheets spec_owner].
  - run_result. intros [= <-]. exact Hdata.
  - destruct sheet as [| | | | | | d0]; try done.
    cbn [py_get possessors_of py_getitem]. run_result.
    destruct (d0 !! "possessors") as [x |] eqn:Hx; cbn [default];
      [| exact IH].
    destruct x as [| [] | z | f | s | [| p ps] | dx];
      cbn -[py_index0]; try exact IH; try done.
    + destruct (negb (z =? 0)); [done | exact IH].
    + destruct f; try done; exact IH.
    + destruct s as [| c s]; [exact IH |]. cbn [String.eqb negb].
      by destruct (py_index0_str (String c s)) as [-> | [x ->]].
    + destruct p as [| | | | | | dp]; try done. cbn. by intros [= <-].
    + destruct (negb (bool_decide (dx = ∅))); [done | exact IH].
Qed.

Lemma scan_sheets_total sheets data :
  forallb wf_sheet sheets = true → ∃ d, scan_sheets sheets data = Return d.
Proof.
  induction sheets as [| sheet rest IH]; cbn [scan_sheets forallb].
  - by exists data.
  - intros [Hs Hrest]%andb_prop. specialize (IH Hrest).
    destruct sheet as [| | | | | | d0]; try done.
    cbn [py_get py_getitem wf_sheet] in *. run_result.
    destruct (d0 !! "possessors") as [x |] eqn:Hx; cbn [default truthy];
      [| exact IH].
    destruct x as [| | | | | [| p ps] |]; try done.
    cbn in Hs. apply andb_prop in Hs as [Hp _].
    destruct p; try done. cbn. eauto.
Qed.

Lemma initial_data_fields content data :
  initial_data content = Return data →
  owner_matches None data
  ∧ py_get content "parcelId" = Return (parcel_id data).
Proof. destruct content; try done. cbn. by intros [= <-]. Qed.

Lemma fill_owner_list content sheets data :
  py_get content "possessionSheets" = Return (PList sheets) →
  fill_owner content data = scan_sheets sheets data.
Proof.
  destruct content as [| | | | | | c]; try done. unfold fill_owner.
  cbn [py_get py_getitem]. run_result.
  destruct (c !! "possessionSheets") as [x |]; cbn [default]; [| done].
  intros [= ->]. by destruct sheets.
Qed.

Lemma scan_sheets_keeps_id sheets data d :
  scan_sheets sheets data = Return d → parcel_id d = parcel_id data.
Proof.
  induction sheets as [| sheet rest IH]; cbn [scan_sheets]; run_result.
  - by intros [= <-].
  - destruct (py_get sheet "possessors") as [ps |]; [| done].
    destruct (truthy ps); [| exact IH].
    destruct (py_getitem sheet "possessors") as [ps' |]; [| done].
    destruct (py_index0 ps') as [p |]; [| done].
    destruct (py_get p "name"); [| done].
    destruct (py_get p "ownership"); [| done].
    destruct (py_get p "address"); [| done].
    by intros [= <-].
Qed.

Lemma fill_owner_keeps_id content data d :
  fill_owner content data = Return d → parcel_id d = parcel_id data.
Proof.
  unfold fill_owner. run_result.
  destruct (py_get content "possessionSheets") as [v |]; [| done].
  destruct (truthy v); [| by intros [= <-]].
  destruct (py_getitem content "possessionSheets") as [v' |]; [| done].
  destruct (py_iter v') as [sheets |]; [| done].
  apply scan_sheets_keeps_id.
Qed.

Lemma parcel_id_from_body sess id m d :
  (get_parcel_info sess id m).2 = Return (Some d) →
  ∃ content, sess id = Response 200 (JsonValue content)
             ∧ py_get content "parcelId" = Return (parcel_id d).
Proof.
  intros (content & data & Hs & _ & Hi & Hf)%get_parcel_info_some.
  exists content. split; [done |].
  apply initial_data_fields in Hi as [_ ->].
  by rewrite (fill_owner_keeps_id _ _ _ Hf).
Qed.

Lemma map_to_list_nonempty (d : gmap string pyval) :
  d ≠ ∅ → ∃ k v l, map_to_list d = (k, v) :: l.
Proof.
  intros Hd. destruct (map_to_list d) as [| [k v] l] eqn:Hl.
  - by apply map_to_list_empty_iff in Hl.
  - eauto.
Qed.

(** *** Readable bodies *)

Lemma scan_sheets_returns sheets data :
  (∃ d, scan_sheets sheets data = Return d) ↔ sheets_readable sheets = true.
Proof.
  induction sheets as [| sheet rest IH]; cbn [scan_sheets sheets_readable].
  - split; [done | by exists data].
  - destruct sheet as [| | | | | | d0];
      try (split; [by intros [d Hd] | done]).
    cbn [py_get py_getitem]. run_result.
    destruct (d0 !! "possessors") as [x |] eqn:Hx; cbn [from_option Datatypes.id];
      [| exact IH].
    destruct (truthy x) eqn:Ht; [| exact IH].
    destruct x as [| b | z | f | s | [| p ps] | dx];
      try (split; [by intros [d Hd] | done]).
    + destruct (py_index0_str s) as [-> | [x ->]];
        (split; [by intros [d Hd] | done]).
    + destruct p as [| | | | | | dp];
        try (split; [by intros [d Hd] | done]).
      cbn. split; [done | eauto].
Qed.

Lemma readable_returns content :
  (∃ data d, initial_data content = Return data
             ∧ fill_owner content data = Return d)
  ↔ readable content = true.
Proof.
  destruct content as [| | | | | | c];
    try (split; [by intros (data & d & Hi & _) | done]).
  unfold initial_data, fill_owner, readable. cbn [py_get py_getitem].
  run_result.
  set (data := ParcelData _ _ _ _ _ _ _ _).
  destruct (c !! "possessionSheets") as [v |] eqn:Hv; cbn [from_option Datatypes.id].
  2:{ cbn. split; [done |]. intros _. by exists data, data. }
  destruct (truthy v) eqn:Ht.
  2:{ split.
      - intros _. destruct v as [| | | | | [| ? ?] |]; try done.
        all: by rewrite Ht.
      - intros _. by exists data, data. }
  destruct v as [| b | z | f | s | l | d]; rewrite ?Ht; cbn [negb].
  - done.
  - split; [by intros (? & ? & _ & ?) | done].
  - split; [by intros (? & ? & _ & ?) | done].
  - split; [by intros (? & ? & _ & ?) | done].
  - destruct s as [| a s]; [done |]. cbn [py_iter].
    destruct (chars_cons a s) as (x & l & ->).
    split; [by intros (? & ? & _ & ?) | done].
  - cbn [py_iter]. rewrite <- (scan_sheets_returns l data). split.
    + intros (data0 & d & [= <-] & Hd). by exists d.
    + intros [d Hd]. by exists data, d.
  - cbn in Ht. apply negb_true_iff, bool_decide_eq_false in Ht.
    destruct (map_to_list_nonempty d Ht) as (k & w & l & Hkl).
    cbn [py_iter]. rewrite Hkl.
    split; [by intros (? & ? & _ & ?) | done].
Qed.

(** *** The claims on a single fetch *)

(** C6.  A fetch never lets an exception through: it always returns.  It
    returns [None] exactly when the status is not 200, or the status is 200
    and the decoded body is falsy, or [session.get] or [response.json()]
    raised, or the decoded body is truthy and not readable; so every 200
    with a truthy readable body gives a record.  A status other than 200
    adds one to [failed_requests] only; a falsy body adds one to
    [successful_requests] only; [session.get] or [response.json()] raising
    adds one to [failed_requests] only; an unreadable body adds one to
    both.  A record comes back only from a 200 with a truthy body, counted
    as successful only. *)
Theorem get_parcel_info_absorbs_failures sess id m :
  let ok := successful_requests (self m) in
  let ko := failed_requests (self m) in
  let ok' := successful_requests (self (get_parcel_info sess id m).1) in
  let ko' := failed_requests (self (get_parcel_info sess id m).1) in
  ∃ v, (get_parcel_info sess id m).2 = Return v
    ∧ (v = None ↔ non_success (sess id) ∨ empty_body (sess id)
                  ∨ transport_error (sess id) ∨ unreadable_body (sess id))
    ∧ (non_success (sess id) → ok' = ok ∧ ko' = S ko)
    ∧ (empty_body (sess id) → ok' = S ok ∧ ko' = ko)
    ∧ (transport_error (sess id) → ok' = ok ∧ ko' = S ko)
    ∧ (unreadable_body (sess id) → ok' = S ok ∧ ko' = S ko)
    ∧ (∀ content, sess id = Response 200 (JsonValue content) →
         truthy content = true → readable content = true →
         ∃ d, v = Some d)
    ∧ (∀ d, v = Some d →
         (∃ content, sess id = Response 200 (JsonValue content)
                     ∧ truthy content = true ∧ readable content = true)
         ∧ ok' = S ok ∧ ko' = ko).
Proof.
  destruct m as [[bs t ok ko] cur ds tr].
  unfold non_success, empty_body, transport_error, unreadable_body. run_M.
  destruct (sess id) as [e | st [e | content]].
  - exists None. repeat split; try naive_solver congruence.
  - destruct (Z.eqb_spec st 200) as [-> | Hne]; cbn [negb];
      exists None; repeat split; try naive_solver congruence.
  - destruct (Z.eqb_spec st 200) as [-> | Hne]; cbn [negb];
      [| exists None; repeat split; try naive_solver congruence].
    destruct (truthy content) eqn:Ht; cbn [negb];
      [| exists None; repeat split; try naive_solver congruence].
    pose proof (readable_returns content) as Hread.
    destruct (initial_data content) as [data | e];
      [destruct (fill_owner content data) as [d | e] eqn:Hfill |].
    + assert (Hr : readable content = true).
      { apply (proj1 Hread). by exists data, d. }
      clear Hread Hfill. exists (Some d).
      repeat split; try naive_solver congruence.
    + assert (Hr : readable content = false).
      { apply not_true_is_false. intros Hr. apply (proj2 Hread) in Hr.
        destruct Hr as (? & ? & [= <-] & ?). congruence. }
      clear Hread Hfill. exists None.
      repeat split; try naive_solver congruence.
    + assert (Hr : readable content = false).
      { apply not_true_is_false. intros Hr. apply (proj2 Hread) in Hr.
        by destruct Hr as (? & ? & ? & ?). }
      clear Hread. exists None. repeat split; try naive_solver congruence.
Qed.

(** C3.  For a 200 whose body carries a [possessionSheets] list: whenever
    a record comes back, its three owner fields are those of the first
    possessor of the first sheet, in source order, whose possessor list is
    not empty, and all three are [None] when no sheet has one; and a record
    does come back when every sheet has the documented shape. *)
Theorem owner_from_first_possessor sess id m content sheets :
  sess id = Response 200 (JsonValue content) →
  py_get content "possessionSheets" = Return (PList sheets) →
  (∀ d, (get_parcel_info sess id m).2 = Return (Some d) →
        owner_matches (spec_owner sheets) d)
  ∧ (forallb wf_sheet sheets = true →
     ∃ d, (get_parcel_info sess id m).2 = Return (Some d)).
Proof.
  intros Hs Hsheets. split.
  - intros d (content' & data & Hs' & _ & Hi & Hf)%get_parcel_info_some.
    rewrite Hs in Hs'. injection Hs' as <-.
    rewrite (fill_owner_list _ _ _ Hsheets) in Hf.
    eapply scan_sheets_owner; [| exact Hf].
    by apply initial_data_fields in Hi as [? _].
  - intros Hwf.
    destruct content as [| | | | | | c]; try done.
    destruct (scan_sheets_total sheets
                (ParcelData (default PNone (c !! "parcelId"))
                   (default PNone (c !! "cadMunicipalityName"))
                   (default PNone (c !! "parcelNumber"))
                   (default PNone (c !! "address"))
                   (default PNone (c !! "area")) PNone PNone PNone) Hwf)
      as [d Hd].
    exists d. eapply get_parcel_info_of_body; [exact Hs | | reflexivity |].
    + cbn. cbn in Hsheets. destruct (decide (c = ∅)) as [-> | Hne].
      * by rewrite lookup_empty in Hsheets.
      * by rewrite bool_decide_eq_false_2.
    + by rewrite (fill_owner_list _ _ _ Hsheets).
Qed.

End FetchProperties.

(** Two sheets of which only the second lists possessors, and two
    possessors on it: the owner is the first of the two. *)
Lemma owner_from_first_possessor_witness :
  let sheets := [Examples.sheet [];
                 Examples.sheet [Examples.possessor "A";
                                 Examples.possessor "B"];
                 Examples.sheet [Examples.possessor "C"]] in
  let content := PDict (<["parcelId" := PInt 7]>
                        (<["possessionSheets" := PList sheets]> ∅)) in
  let sess : session := λ _, Response 200 (JsonValue content) in
  ∃ d, (get_parcel_info sess 3 (boot (F := Z) (Self 3 [] 0 0))).2
         = Return (Some d)
       ∧ owner_name d = PStr "A" ∧ owner_address d = PStr "Zagreb".
Proof.
  intros sheets content sess.
  destruct (owner_from_first_possessor sess 3 (boot (F := Z) (Self 3 [] 0 0))
              content sheets eq_refl eq_refl) as [Hfrom Hsome].
  destruct (Hsome eq_refl) as [d Hd].
  exists d. split; [exact Hd |].
  assert (Hso : spec_owner sheets = Some (Examples.possessor "A"))
    by reflexivity.
  pose proof (Hfrom d Hd) as Hm. rewrite Hso in Hm.
  destruct Hm as (Hn & _ & Ha).
  assert (Hn' : py_get (Examples.possessor "A") "name" = Return (PStr "A"))
    by reflexivity.
  assert (Ha' : py_get (Examples.possessor "A") "address"
                = Return (PStr "Zagreb")) by reflexivity.
  split; congruence.
Defined.

(* ===================================================================== *)
(** * Properties of CadastralDatabase *)
(* ===================================================================== *)

Section SqliteProperties.
Context `{!Engine}.
Implicit Types (t : table) (p q : parcel_data) (k : Z) (r : row).

Lemma row_for_key k ts p r : row_for k ts p = Return r → row_parcel_id r = k.
Proof.
  unfold row_for. run_result.
  repeat (match goal with
          | |- context [bind_param ?v] => destruct (bind_param v); [| done]
          end).
  by intros [= <-].
Qed.

Lemma max_key_None t : max_key t = None → t = [].
Proof. destruct t as [| r t]; [done |]. cbn. by destruct (max_key t). Qed.

Lemma max_key_bound t m k : max_key t = Some m → k ∈ keys t → k ≤ m.
Proof.
  revert m. induction t as [| r t IH]; intros m; [done |].
  cbn. intros Hm [-> | Hin]%elem_of_cons.
  - destruct (max_key t); injection Hm as <-; lia.
  - destruct (max_key t) as [m' |] eqn:Hm'.
    + injection Hm as <-. specialize (IH m' eq_refl Hin). lia.
    + apply max_key_None in Hm' as ->. by apply elem_of_nil in Hin.
Qed.

Lemma new_rowid_fresh t k : new_rowid t = Return k → k ∉ keys t.
Proof.
  unfold new_rowid. destruct (max_key t) as [m |] eqn:Hm.
  - destruct (m <? max_int64) eqn:Hlt.
    + intros [= <-] Hin. pose proof (max_key_bound _ _ _ Hm Hin). lia.
    + destruct (_ && bool_decide _) eqn:Hc; [| done].
      intros [= <-]. apply andb_prop in Hc as [_ Hc].
      by apply bool_decide_eq_true in Hc.
  - apply max_key_None in Hm as ->. intros _. apply not_elem_of_nil.
Qed.

(** What a statement that went through did. *)
Lemma insert_or_replace_inv ts t p t' :
  insert_or_replace ts t p = Return t' →
  ∃ k r, row_for k ts p = Return r ∧ t' = delete_key k t ++ [r]
         ∧ (explicit_key p = Some k ∨ (explicit_key p = None ∧ k ∉ keys t)).
Proof.
  unfold insert_or_replace, row_for, explicit_key. run_result.
  destruct (bind_param (parcel_id p)) as [v_id |]; [| done].
  repeat (match goal with
          | |- context [bind_param ?v] => destruct (bind_param v); [| done]
          end).
  destruct (resolve_rowid t v_id) as [k |] eqn:Hk; [| done].
  intros [= <-]. eexists k, _. split; [done |]. split; [done |].
  destruct v_id; cbn in Hk.
  - right. split; [done |]. by apply new_rowid_fresh.
  - left. congruence.
  - left. by destruct (rowid_of_value (SReal f)); simplify_eq.
  - left. by destruct (rowid_of_value (SText s)); simplify_eq.
Qed.

Lemma rows_at_delete_same k t : rows_at k (delete_key k t) = [].
Proof.
  unfold rows_at, delete_key. induction t as [| r t IH]; [done |].
  rewrite (filter_cons (λ r, row_parcel_id r ≠ k)).
  destruct (decide (row_parcel_id r ≠ k)); [| done].
  by rewrite filter_cons_False.
Qed.

Lemma rows_at_delete_other k k' t :
  k' ≠ k → rows_at k (delete_key k' t) = rows_at k t.
Proof.
  intros Hne. unfold rows_at, delete_key. induction t as [| r t IH]; [done |].
  rewrite (filter_cons (λ r, row_parcel_id r ≠ k')).
  destruct (decide (row_parcel_id r ≠ k')) as [Hr | Hr].
  - rewrite !(filter_cons (λ r, row_parcel_id r = k)). by rewrite IH.
  - rewrite (filter_cons_False (λ r, row_parcel_id r = k)); [done |].
    intros ?. apply Hr. congruence.
Qed.

Lemma rows_at_replace_same k t r :
  row_parcel_id r = k → rows_at k (delete_key k t ++ [r]) = [r].
Proof.
  intros Hr. unfold rows_at. rewrite filter_app.
  fold (rows_at k (delete_key k t)). rewrite rows_at_delete_same.
  by rewrite filter_cons_True.
Qed.

Lemma rows_at_replace_other k k' t r :
  row_parcel_id r = k' → k' ≠ k →
  rows_at k (delete_key k' t ++ [r]) = rows_at k t.
Proof.
  intros Hr Hne. unfold rows_at. rewrite filter_app.
  fold (rows_at k (delete_key k' t)). rewrite rows_at_delete_other by done.
  rewrite filter_cons_False by congruence. by rewrite app_nil_r.
Qed.

Lemma rows_at_nonempty k t : rows_at k t ≠ [] → k ∈ keys t.
Proof.
  unfold rows_at, keys. destruct (filter _ t) as [| r l] eqn:Hf; [done |].
  intros _. assert (Hin : r ∈ filter (λ r, row_parcel_id r = k) t)
    by (rewrite Hf; left).
  apply list_elem_of_filter in Hin as [<- Hin].
  by apply list_elem_of_fmap_2.
Qed.

Lemma keys_replace_NoDup k t r :
  row_parcel_id r = k → NoDup (keys t) → NoDup (keys (delete_key k t ++ [r])).
Proof.
  intros Hr Hnd. unfold keys. rewrite fmap_app. apply NoDup_app.
  split; [| split].
  - eapply sublist_NoDup; [exact Hnd |].
    apply fmap_sublist, sublist_filter.
  - intros x (r' & -> & [Hne _]%list_elem_of_filter)%list_elem_of_fmap.
    cbn. intros Heq%list_elem_of_singleton. congruence.
  - apply NoDup_singleton.
Qed.

Lemma executemany_cons_inv env i t p rest t' :
  executemany env i t (p :: rest) = (t', Return tt) →
  fault env i = None
  ∧ ∃ t1, insert_or_replace (now env i) t p = Return t1
          ∧ executemany env (S i) t1 rest = (t', Return tt).
Proof.
  cbn. destruct (fault env i); [done |].
  destruct (insert_or_replace (now env i) t p) as [t1 |]; [| done].
  eauto.
Qed.

Lemma executemany_app_inv env i t pre rest t' :
  executemany env i t (pre ++ rest) = (t', Return tt) →
  ∃ t1, executemany env i t pre = (t1, Return tt)
        ∧ executemany env (i + length pre) t1 rest = (t', Return tt).
Proof.
  revert i t. induction pre as [| p pre IH]; intros i t.
  - cbn. rewrite Nat.add_0_r. eauto.
  - rewrite <- app_comm_cons.
    intros (Hf & t1 & Hi & Hrest)%executemany_cons_inv.
    destruct (IH _ _ Hrest) as (t2 & Hpre & Hpost).
    exists t2. cbn. rewrite Hf, Hi. split; [done |].
    by replace (i + S (length pre))%nat with (S i + length pre)%nat by lia.
Qed.

Lemma executemany_result env i t rs :
  ∃ t' u, executemany env i t rs = (t', u).
Proof. destruct (executemany env i t rs); eauto. Qed.

(** The statements keep the key unique, also when one of them fails. *)
Lemma executemany_NoDup env i t rs :
  NoDup (keys t) → NoDup (keys (executemany env i t rs).1).
Proof.
  revert i t. induction rs as [| p rs IH]; intros i t Hnd; [done |].
  cbn. destruct (fault env i); [done |].
  destruct (insert_or_replace (now env i) t p) as [t1 |] eqn:Hi; [| done].
  apply IH.
  apply insert_or_replace_inv in Hi as (k & r & Hr & -> & _).
  apply keys_replace_NoDup; [| done]. by apply row_for_key in Hr.
Qed.

Lemma insert_many_NoDup env t rs :
  NoDup (keys t) → NoDup (keys (insert_many env t rs).1).
Proof.
  intros Hnd. unfold insert_many.
  pose proof (executemany_NoDup env 0 t rs Hnd) as Hnd'.
  destruct (executemany env 0 t rs) as [t' [[] | e]]; done.
Qed.

Lemma after_calls_NoDup calls t :
  NoDup (keys t) → NoDup (keys (after_calls calls t)).
Proof.
  revert t. induction calls as [| [env rs] calls IH]; intros t Hnd; [done |].
  cbn. by apply IH, insert_many_NoDup.
Qed.

(** Statements on other keys leave the rows of a stored key alone. *)
Lemma executemany_keeps env i t post t' k :
  executemany env i t post = (t', Return tt) →
  rows_at k t ≠ [] →
  Forall (λ q, explicit_key q ≠ Some k) post →
  rows_at k t' = rows_at k t.
Proof.
  revert i t. induction post as [| q post IH]; intros i t.
  - cbn. by intros [= <-].
  - intros (_ & t1 & Hi & Hrest)%executemany_cons_inv Hk Hpost.
    apply Forall_cons in Hpost as [Hq Hpost].
    apply insert_or_replace_inv in Hi as (k' & r & Hr & -> & Hkey).
    apply row_for_key in Hr.
    assert (k' ≠ k) as Hne.
    { destruct Hkey as [Hkey | [_ Hfresh]]; [congruence |].
      intros ->. by apply Hfresh, rows_at_nonempty. }
    rewrite <- (rows_at_replace_other k k' t r Hr Hne).
    apply (IH _ _ Hrest); [| done].
    by rewrite (rows_at_replace_other k k' t r Hr Hne).
Qed.

Lemma insert_many_ok env t rs t' :
  insert_many env t rs = (t', Return tt) →
  executemany env 0 t rs = (t', Return tt).
Proof.
  unfold insert_many.
  destruct (executemany env 0 t rs) as [t1 [[] | e]]; [| done].
  by intros [= <-].
Qed.

(** C4.  Whatever calls of [insert_many] the store has seen, its keys are
    pairwise distinct; and after a call that goes through, a key asked for
    by a record of the call (and by none of the records after it in the
    call) holds exactly one row: the one built from that record, every
    column and the time stamp included, whatever the key held before. *)
Theorem upsert_last_write_wins calls t env pre p post k t2 :
  NoDup (keys t) →
  insert_many env (after_calls calls t) (pre ++ p :: post) = (t2, Return tt) →
  explicit_key p = Some k →
  Forall (λ q, explicit_key q ≠ Some k) post →
  NoDup (keys (after_calls calls t))
  ∧ NoDup (keys t2)
  ∧ ∃ r, row_for k (now env (length pre)) p = Return r ∧ rows_at k t2 = [r].
Proof.
  intros Hnd Hcall Hp Hpost.
  pose proof (after_calls_NoDup calls t Hnd) as Hnd1.
  split; [done |]. split.
  { pose proof (insert_many_NoDup env _ (pre ++ p :: post) Hnd1) as H2.
    by rewrite Hcall in H2. }
  apply insert_many_ok, executemany_app_inv in Hcall as (t1 & _ & Hrest).
  apply executemany_cons_inv in Hrest as (_ & t1' & Hi & Hrest).
  apply insert_or_replace_inv in Hi as (k' & r & Hr & -> & Hkey).
  assert (k' = k) as -> by (destruct Hkey as [? | [? _]]; congruence).
  exists r. split; [done |].
  pose proof (row_for_key _ _ _ _ Hr) as Hrk.
  rewrite (executemany_keeps _ _ _ _ _ k Hrest); [| | done].
  - by apply rows_at_replace_same.
  - by rewrite rows_at_replace_same.
Qed.

(** A row stays through the statements unless a record asks for its
    key. *)
Lemma executemany_row_kept env i0 t rs t' r :
  executemany env i0 t rs = (t', Return tt) → r ∈ t →
  r ∈ t' ∨ ∃ j q, rs !! j = Some q ∧ explicit_key q = Some (row_parcel_id r).
Proof.
  revert i0 t. induction rs as [| p rs IH]; intros i0 t.
  - cbn. intros [= <-] Hin. by left.
  - intros (_ & t1 & Hi & Hrest)%executemany_cons_inv Hin.
    apply insert_or_replace_inv in Hi as (k & r1 & Hr1 & -> & Hkey).
    destruct (decide (row_parcel_id r = k)) as [Heq | Hne].
    + right. exists 0%nat, p. split; [done |].
      destruct Hkey as [Hkey | [_ Hfresh]]; [congruence |].
      exfalso. apply Hfresh. rewrite <- Heq. by apply list_elem_of_fmap_2.
    + destruct (IH _ _ Hrest) as [Hin' | (j & q & Hj & Hq)].
      * apply elem_of_app. left. by apply list_elem_of_filter.
      * by left.
      * right. by exists (S j), q.
Qed.

(** What the statement of the record at index [i] leaves behind when the
    call goes through: its row, under the key it asks for if it asks for
    one, unless a later record of the call asks for the key it went
    under. *)
Lemma executemany_stores env i0 t rs t' i p :
  executemany env i0 t rs = (t', Return tt) → rs !! i = Some p →
  ∃ k r0, row_for k (now env (i0 + i)) p = Return r0
          ∧ (∀ k0, explicit_key p = Some k0 → k = k0)
          ∧ (r0 ∈ t'
             ∨ ∃ j q, (i < j)%nat ∧ rs !! j = Some q
                      ∧ explicit_key q = Some k).
Proof.
  revert i0 t i. induction rs as [| p0 rs IH]; intros i0 t i; [done |].
  intros (_ & t1 & Hi & Hrest)%executemany_cons_inv Hp.
  destruct i as [| i]; cbn in Hp.
  - injection Hp as ->.
    apply insert_or_replace_inv in Hi as (k & r1 & Hr1 & -> & Hkey).
    pose proof (row_for_key _ _ _ _ Hr1) as Hk.
    exists k, r1. rewrite Nat.add_0_r. split; [done |]. split.
    { intros k0 Hk0. destruct Hkey as [? | [? _]]; congruence. }
    destruct (executemany_row_kept _ _ _ _ _ r1 Hrest)
      as [Hin | (j & q & Hj & Hq)].
    + apply elem_of_app. right. by left.
    + by left.
    + right. exists (S j), q. rewrite Hk in Hq. split; [lia | done].
  - destruct (IH _ _ _ Hrest Hp) as (k & r0 & Hr0 & Hk & Hin).
    exists k, r0. replace (i0 + S i)%nat with (S i0 + i)%nat by lia.
    split; [done |]. split; [done |].
    destruct Hin as [Hin | (j & q & Hlt & Hj & Hq)]; [by left |].
    right. exists (S j), q. split; [lia | done].
Qed.



End SqliteProperties.


(** A store that holds parcel 7 at an old address; a call then writes
    parcels 3, 7 (new address) and 9. *)
Lemma upsert_last_write_wins_witness :
  let H := Examples.plain_engine in
  let env := StmtEnv (λ i, 100 + Z.of_nat i) (λ _, None) in
  let calls := [(Examples.quiet, [Examples.at_address 7 "old"])] in
  let t2 := (insert_many env (after_calls calls [])
               [Examples.plain 3; Examples.at_address 7 "new";
                Examples.plain 9]).1 in
  NoDup (keys t2)
  ∧ rows_at 7 t2
    = [Row 7 SNull SNull (SText "new") SNull SNull SNull SNull 101].
Proof.
  intros H env calls t2.
  destruct (upsert_last_write_wins calls [] env [Examples.plain 3]
              (Examples.at_address 7 "new") [Examples.plain 9] 7 t2)
    as (_ & Hnd & r & Hr & Hrows).
  - constructor.
  - reflexivity.
  - reflexivity.
  - repeat constructor; vm_compute; discriminate.
  - split; [exact Hnd |]. rewrite Hrows. vm_compute in Hr. congruence.
Defined.

(** What the rollback undoes: the second statement raises after the
    first has written its row. *)
Example rollback_discards_partial_work :
  let H := Examples.plain_engine in
  let rs := [Examples.plain 1;
             ParcelData (PInt 2) PNone PNone (PList []) PNone PNone PNone
                        PNone] in
  keys (executemany Examples.quiet 0 [] rs).1 = [1]
  ∧ insert_many Examples.quiet [] rs
    = ([], Raise (DatabaseError "Error binding parameter")).
Proof. split; reflexivity. Qed.

(* ===================================================================== *)
(** * Properties of the scheduler *)
(* ===================================================================== *)

Lemma slide_last_n {A} (hist : list A) (d : A) :
  slide (last_n 50 hist) d = last_n 50 (hist ++ [d]).
Proof.
  unfold slide, last_n. rewrite !length_app, length_drop. cbn [length].
  destruct (Nat.ltb_spec 50 (length hist - (length hist - 50) + 1))
    as [Hlt | Hge].
  - rewrite drop_app_le by lia.
    replace (length hist + 1 - 50)%nat with (length hist - 50 + 1)%nat by lia.
    rewrite <- drop_drop.
    destruct (drop (length hist - 50) hist) as [| x l] eqn:Hd; [| done].
    apply (f_equal length) in Hd. rewrite length_drop in Hd. cbn in Hd. lia.
  - replace (length hist - 50)%nat with 0%nat by lia.
    by replace (length hist + 1 - 50)%nat with 0%nat by lia.
Qed.

Lemma last_n_short {A} (n : nat) (hist : list A) :
  (length hist ≤ n)%nat → last_n n hist = hist.
Proof.
  intros Hle. unfold last_n. by replace (length hist - n)%nat with 0%nat by lia.
Qed.

Lemma length_last_n {A} (n : nat) (hist : list A) :
  (length (last_n n hist) ≤ n)%nat.
Proof. unfold last_n. rewrite length_drop. lia. Qed.

Lemma length_slide {A} (ds : list A) (d : A) :
  (length ds ≤ 50)%nat → (length (slide ds d) ≤ 50)%nat.
Proof.
  intros Hle. rewrite <- (last_n_short 50 ds Hle), slide_last_n.
  apply length_last_n.
Qed.

Section LoopProperties.
Context `{!Engine} {F : Type} `{!FloatArith F}.
Implicit Types (m : machine F) (sess : session) (env : batch_env F).

Lemma bind_return {A B} (c : M F A) (f : A → M F B) m m' a :
  c m = (m', Return a) → (c ≫= f) m = f a m'.
Proof. intros Hc. unfold mbind, M_bind. by rewrite Hc. Qed.

Lemma bind_raise {A B} (c : M F A) (f : A → M F B) m m' e :
  c m = (m', Raise e) → (c ≫= f) m = (m', Raise e).
Proof. intros Hc. unfold mbind, M_bind. by rewrite Hc. Qed.

Lemma bind_mret {A B} (a : A) (f : A → M F B) m : (mret a ≫= f) m = f a m.
Proof. done. Qed.

Lemma bind_gets {A B} (g : machine F → A) (f : A → M F B) m :
  (gets g ≫= f) m = f (g m) m.
Proof. done. Qed.

Lemma bind_modify {B} (g : machine F → machine F) (f : unit → M F B) m :
  (modify g ≫= f) m = f () (g m).
Proof. done. Qed.

Lemma gather_run sess ids m :
  ∃ a b rs,
    gather (get_parcel_info sess <$> ids) m
    = (bump a b (Get <$> ids) m, Return rs)
    ∧ (length ids ≤ a + b)%nat.
Proof.
  revert m. induction ids as [| id ids IH]; intros m.
  - exists 0%nat, 0%nat, []. cbn [fmap list_fmap]. by rewrite bump_nothing.
  - destruct (get_parcel_info_run sess id m) as (a & b & r & Hr & Hab).
    destruct (IH (bump a b [Get id] m)) as (a' & b' & rs & Hrs & Hab').
    exists (a + a')%nat, (b + b')%nat, (r :: rs). split; [| cbn; lia].
    cbn [fmap list_fmap gather].
    rewrite (bind_return _ _ _ _ _ Hr), (bind_return _ _ _ _ _ Hrs).
    by rewrite bump_bump.
Qed.

Lemma length_batch_ids bs start : length (batch_ids bs start) = Z.to_nat bs.
Proof. unfold batch_ids. by rewrite length_fmap, length_seqZ. Qed.

Lemma process_batch_run sess start m :
  ∃ a b rs,
    process_batch sess start m
    = (bump a b (Get <$> batch_ids (batch_size (self m)) start) m, Return rs)
    ∧ (Z.to_nat (batch_size (self m)) ≤ a + b)%nat.
Proof.
  destruct (gather_run sess (batch_ids (batch_size (self m)) start) m)
    as (a & b & rs & Hrs & Hab).
  exists a, b, (omap id rs). rewrite length_batch_ids in Hab. split; [| done].
  unfold process_batch.
  rewrite (bind_return _ _ m m (batch_size (self m))) by done.
  by rewrite (bind_return _ _ _ _ _ Hrs).
Qed.

Lemma gets_of_app (tr es : list (event F)) :
  gets_of (tr ++ es) = gets_of tr ++ gets_of es.
Proof. apply omap_app. Qed.

Lemma gets_of_Get ids : gets_of (F := F) (Get <$> ids) = ids.
Proof. induction ids as [| id ids IH]; [done |]. cbn. by f_equal. Qed.

(** The machine with more in its trace. *)
Lemma report_success_rate_run m :
  batch_size (self m) ≠ 0 →
  (0 < successful_requests (self m) + failed_requests (self m))%nat →
  ∃ es, report_success_rate m = (bump 0 0 es m, Return tt) ∧ gets_of es = [].
Proof.
  intros Hbs Hpos. destruct m as [[bs t ok ko] cur ds tr]. cbn in *.
  unfold report_success_rate, py_mod, py_truediv, bump. run_M.
  destruct (Z.eqb_spec bs 0) as [| _]; [done |].
  destruct (_ `mod` _ =? 0).
  - destruct (Z.eqb_spec (Z.of_nat ok + Z.of_nat ko) 0) as [| _]; [lia |].
    by eexists [_].
  - exists []. by rewrite app_nil_r.
Qed.

Lemma try_block_run env m :
  0 < batch_size (self m) →
  let s := self m in
  let ids := batch_ids (batch_size s) (current_id m) in
  let d := fsub (batch_end_time env) (batch_start_time env) in
  let ds := batch_durations m ++ [d] in
  ∃ a b rs,
    process_batch (sess env) (current_id m) m
    = (bump a b (Get <$> ids) m, Return rs)
    ∧ match (match rs with
             | [] => (db s, Return tt)
             | _ :: _ => insert_many (stmts env) (db s) rs
             end) with
      | (t', Return _) =>
          ∃ es, gets_of es = []
            ∧ try_block env m
              = (Machine (Self (batch_size s) t'
                               (a + successful_requests s)
                               (b + failed_requests s))
                         (current_id m)
                         (if (50 <? length ds)%nat then tail ds else ds)
                         (trace m ++ (Get <$> ids) ++ es), Return tt)
      | (_, Raise e) =>
          try_block env m = (bump a b (Get <$> ids) m, Raise e)
      end.
Proof.
  intros Hbs s ids d ds.
  destruct (process_batch_run (sess env) (current_id m) m)
    as (a & b & rs & Hpb & Hab).
  exists a, b, rs. split; [done |].
  unfold try_block.
  rewrite (bind_return _ _ m m (current_id m)) by done.
  rewrite (bind_return _ _ _ _ _ Hpb).
  destruct m as [[bs t ok ko] cur hist tr]. cbn -[Nat.ltb] in *.
  subst s ids d ds. cbn -[Nat.ltb].
  assert (Hins : ∀ t' : table,
    ∃ es, gets_of (F := F) es = [] ∧
    ((set_batch_durations (hist ++ [fsub (batch_end_time env) (batch_start_time env)]);;
      ds0 ← gets batch_durations;
      (if (50 <? length ds0)%nat then set_batch_durations (tail ds0) else mret ());;
      report_success_rate)
       (Machine (Self bs t' (a + ok) (b + ko)) cur hist
                (tr ++ (Get <$> batch_ids bs cur)))
     = (Machine (Self bs t' (a + ok) (b + ko)) cur
          (if (50 <? length (hist ++ [fsub (batch_end_time env) (batch_start_time env)]))%nat
           then tail (hist ++ [fsub (batch_end_time env) (batch_start_time env)])
           else hist ++ [fsub (batch_end_time env) (batch_start_time env)])
          (tr ++ (Get <$> batch_ids bs cur) ++ es), Return tt))).
  { intros t'. run_M.
    set (ds' := if (50 <? _)%nat then tail _ else _).
    set (m1 := Machine (Self bs t' (a + ok) (b + ko)) cur ds'
                       (tr ++ (Get <$> batch_ids bs cur))).
    destruct (report_success_rate_run m1) as (es & Hes & Hg);
      [cbn; lia | cbn; lia |].
    exists es. split; [done |].
    destruct (50 <? _)%nat; cbn -[Nat.ltb]; subst ds' m1; rewrite Hes;
      unfold bump; cbn -[Nat.ltb]; by rewrite <- app_assoc. }
  destruct rs as [| r rs].
  - destruct (Hins t) as (es & Hg & Hrun). exists es. split; [done |].
    unfold bump; cbn -[Nat.ltb].
    rewrite bind_mret, bind_gets. exact Hrun.
  - unfold bump; cbn -[Nat.ltb].
    destruct (insert_many (stmts env) t (r :: rs)) as [t' [[] | e]] eqn:Hcall.
    + destruct (Hins t') as (es & Hg & Hrun). exists es. split; [done |].
      erewrite (bind_return _ _ _ _ ()).
      2:{ unfold db_insert_many. cbn. by rewrite Hcall. }
      rewrite bind_gets. exact Hrun.
    + erewrite bind_raise; [done |].
      unfold db_insert_many. cbn. rewrite Hcall.
      unfold insert_many in Hcall.
      destruct (executemany _ _ _ _) as [? [[] |]]; by simplify_eq.
Qed.

Lemma batch_ids_seqZ bs start : batch_ids bs start = seqZ start bs.
Proof.
  unfold batch_ids. change (λ i, start + i) with (Z.add start).
  by rewrite fmap_add_seqZ, Z.add_0_r.
Qed.

Lemma elem_of_batch_ids bs start id :
  id ∈ batch_ids bs start ↔ start ≤ id < start + bs.
Proof. rewrite batch_ids_seqZ. apply elem_of_seqZ. Qed.

(** What a pass does before [try]: it prints at most one line, and only
    when there are durations to average. *)
Lemma loop_head_run start_id end_id m :
  match loop_head start_id end_id m with
  | (m0, Return _) =>
      batch_size (self m) ≠ 0
      ∧ ∃ es, m0 = bump 0 0 es m ∧ gets_of es = []
          ∧ match batch_durations m with
            | [] => es = []
            | _ :: _ =>
                ∃ pct eta,
                  es = [Print (Progress (current_id m) end_id pct
                                        (length (db (self m))) eta)]
                  ∧ ftrunc (fmul (fdiv_int (fsum (batch_durations m))
                                    (Z.of_nat (length (batch_durations m))))
                                 (truediv (end_id - current_id m)
                                          (batch_size (self m))))
                    = Return eta
            end
  | (m0, Raise _) => m0 = m
  end.
Proof.
  destruct m as [[bs t ok ko] cur ds tr].
  unfold loop_head, report_progress, py_truediv, timedelta, bump. run_M.
  destruct (Z.eqb_spec bs 0) as [| Hbs]; [done |].
  destruct ds as [| d ds].
  - split; [done |]. exists []. by rewrite app_nil_r.
  - destruct (ftrunc _) as [secs |] eqn:Hsecs; [| done].
    destruct (_ <=? 999999999); [| done].
    destruct (end_id - start_id =? 0); [done |].
    split; [done |]. eexists [_]. split; [done |]. split; [done |].
    by eexists _, _.
Qed.

Lemma loop_head_first start_id end_id m :
  batch_size (self m) ≠ 0 → batch_durations m = [] →
  loop_head start_id end_id m = (m, Return tt).
Proof.
  destruct m as [[bs t ok ko] cur ds tr]. cbn. intros Hbs ->.
  unfold loop_head, report_progress, py_truediv. run_M.
  by destruct (Z.eqb_spec bs 0).
Qed.

Lemma loop_body_unfold start_id end_id env m :
  loop_body start_id end_id env m =
  match loop_head start_id end_id m with
  | (m0, Raise e) => (m0, Raise e)
  | (m0, Return _) =>
      match try_block env m0 with
      | (m1, Return _) =>
          (Machine (self m1) (current_id m1 + batch_size (self m1))
                   (batch_durations m1) (trace m1), Return tt)
      | (m1, Raise e) =>
          (Machine (self m1) (current_id m1) (batch_durations m1)
                   (trace m1 ++ [Print (ErrorInBatch (current_id m1) e);
                                 Sleep 60]), Return tt)
      end
  end.
Proof.
  unfold loop_body, except_block. run_M.
  destruct (loop_head start_id end_id m) as [m0 [[] | e]]; [| done].
  destruct (try_block env m0) as [m1 [[] | e]]; [done |].
  by rewrite <- app_assoc.
Qed.

(** One pass whose head went through, by the way its [try] block ends. *)
Lemma loop_body_pass start_id end_id env m m0 :
  0 < batch_size (self m) →
  loop_head start_id end_id m = (m0, Return tt) →
  let bs := batch_size (self m) in
  let cur := current_id m in
  let ds := batch_durations m in
  let d := fsub (batch_end_time env) (batch_start_time env) in
  match try_block env m0 with
  | (m1, Return _) =>
      loop_body start_id end_id env m
      = (Machine (self m1) (cur + bs) (slide ds d) (trace m1), Return tt)
      ∧ batch_durations m1 = slide ds d
      ∧ batch_size (self m1) = bs
      ∧ gets_of (trace m1) = gets_of (trace m) ++ batch_ids bs cur
      ∧ ∃ rs, (process_batch (sess env) cur m0).2 = Return rs
              ∧ match rs with
                | [] => db (self m1) = db (self m)
                | _ :: _ => insert_many (stmts env) (db (self m)) rs
                            = (db (self m1), Return tt)
                end
  | (m1, Raise e) =>
      loop_body start_id end_id env m
      = (Machine (self m1) cur ds
                 (trace m1 ++ [Print (ErrorInBatch cur e); Sleep 60]),
         Return tt)
      ∧ batch_size (self m1) = bs
      ∧ db (self m1) = db (self m)
      ∧ gets_of (trace m1) = gets_of (trace m) ++ batch_ids bs cur
      ∧ ∃ rs, (process_batch (sess env) cur m0).2 = Return rs ∧ rs ≠ []
              ∧ (insert_many (stmts env) (db (self m)) rs).2 = Raise e
  end.
Proof.
  intros Hbs Hhead bs cur ds d.
  rewrite loop_body_unfold, Hhead.
  pose proof (loop_head_run start_id end_id m) as Hrun.
  rewrite Hhead in Hrun. destruct Hrun as (_ & es & -> & Hes & _).
  destruct (try_block_run env (bump 0 0 es m)) as (a & b & rs & Hpb & Htry);
    [done |].
  apply (f_equal snd) in Hpb.
  destruct m as [[bs' t ok ko] cur' ds' tr]. cbn -[Nat.ltb gets_of] in *.
  subst bs cur ds d.
  destruct rs as [| r rs].
  - destruct Htry as (es' & Hes' & ->). cbn -[Nat.ltb gets_of].
    repeat split; try done.
    + rewrite !gets_of_app, Hes, Hes', gets_of_Get. by rewrite !app_nil_r.
    + by exists [].
  - destruct (insert_many (stmts env) t (r :: rs)) as [t' [[] | e]] eqn:Hcall.
    + destruct Htry as (es' & Hes' & ->). cbn -[Nat.ltb gets_of].
      repeat split; try done.
      * rewrite !gets_of_app, Hes, Hes', gets_of_Get. by rewrite !app_nil_r.
      * by exists (r :: rs).
    + rewrite Htry. unfold bump; cbn -[gets_of].
      repeat split; try done.
      * rewrite !gets_of_app, Hes, gets_of_Get. by rewrite !app_nil_r.
      * exists (r :: rs). by rewrite Hcall.
Qed.

Lemma loop_body_fatal start_id end_id env m m0 e :
  loop_head start_id end_id m = (m0, Raise e) →
  loop_body start_id end_id env m = (m, Raise e).
Proof.
  intros Hhead. rewrite loop_body_unfold, Hhead.
  pose proof (loop_head_run start_id end_id m) as Hrun.
  rewrite Hhead in Hrun. by rewrite Hrun.
Qed.

Lemma scrape_loop_exit start_id end_id envs m :
  end_id ≤ current_id m →
  scrape_loop start_id end_id envs m = (m, Return Exited).
Proof.
  intros Hle. destruct envs as [| env rest]; cbn [scrape_loop];
    rewrite bind_gets; by destruct (Z.ltb_spec (current_id m) end_id); [lia |].
Qed.

Lemma scrape_loop_step start_id end_id env rest m :
  current_id m < end_id →
  scrape_loop start_id end_id (env :: rest) m
  = (loop_body start_id end_id env;; scrape_loop start_id end_id rest) m.
Proof.
  intros Hlt. cbn [scrape_loop]. rewrite bind_gets.
  by destruct (Z.ltb_spec (current_id m) end_id); [| lia].
Qed.

Lemma scrape_loop_status start_id end_id envs m m' st :
  scrape_loop start_id end_id envs m = (m', Return st) →
  (st = Exited ↔ end_id ≤ current_id m').
Proof.
  revert m. induction envs as [| env rest IH]; intros m.
  - cbn [scrape_loop]. rewrite bind_gets.
    destruct (Z.ltb_spec (current_id m) end_id); intros [= <- <-];
      split; (done || lia).
  - destruct (Z.lt_ge_cases (current_id m) end_id) as [Hlt | Hge].
    + rewrite scrape_loop_step by done.
      destruct (loop_body start_id end_id env m) as [m1 [[] | e]] eqn:Hbody.
      * rewrite (bind_return _ _ _ _ _ Hbody). apply IH.
      * by rewrite (bind_raise _ _ _ _ _ Hbody).
    + rewrite scrape_loop_exit by done. intros [= <- <-]. split; (done || lia).
Qed.

(** The identifiers that a run of the loop requests: whole batches, from
    the current identifier on, the last one started below [end_id]. *)
Lemma scrape_loop_gets start_id end_id envs m :
  0 < batch_size (self m) →
  let m' := (scrape_loop start_id end_id envs m).1 in
  batch_size (self m') = batch_size (self m)
  ∧ ∃ new, gets_of (trace m') = gets_of (trace m) ++ new
       ∧ Forall (λ id, current_id m ≤ id < end_id + batch_size (self m) - 1)
                new
       ∧ (envs ≠ [] → current_id m < end_id → batch_durations m = [] →
          ∃ more, new = batch_ids (batch_size (self m)) (current_id m) ++ more).
Proof.
  revert m. induction envs as [| env rest IH]; intros m Hbs; cbn zeta.
  - cbn [scrape_loop]. rewrite bind_gets. cbn. split; [done |].
    exists []. rewrite app_nil_r. by repeat split.
  - destruct (Z.lt_ge_cases (current_id m) end_id) as [Hlt | Hge].
    2:{ rewrite scrape_loop_exit by done. cbn. split; [done |].
        exists []. rewrite app_nil_r. repeat split; [done |]. lia. }
    rewrite scrape_loop_step by done.
    destruct (loop_head start_id end_id m) as [m0 [[] | e]] eqn:Hhead.
    2:{ rewrite (bind_raise _ _ _ _ _ (loop_body_fatal _ _ _ _ _ _ Hhead)).
        cbn. split; [done |]. exists []. rewrite app_nil_r.
        repeat split; [done |]. intros _ _ Hds.
        rewrite loop_head_first in Hhead by (done || lia). done. }
    pose proof (loop_body_pass start_id end_id env m m0 Hbs Hhead) as Hpass.
    cbn zeta in Hpass.
    destruct (try_block env m0) as [m1 [[] | e]].
    + destruct Hpass as (Hbody & _ & Hbs1 & Hgets & _).
      rewrite (bind_return _ _ _ _ _ Hbody).
      match goal with |- context [scrape_loop _ _ rest ?m2] =>
        destruct (IH m2) as (Hbs2 & new & Hnew & Hall & _) end;
        [cbn; lia |].
      cbn -[gets_of] in Hbs2, Hnew, Hall. rewrite Hbs1 in Hbs2. split; [done |].
      exists (batch_ids (batch_size (self m)) (current_id m) ++ new).
      rewrite Hnew, Hgets, <- app_assoc. split; [done |]. split.
      * apply Forall_app. split.
        -- apply Forall_forall. intros id Hid%elem_of_batch_ids. lia.
        -- eapply Forall_impl; [exact Hall |]. cbn. intros id. rewrite Hbs1. lia.
      * intros _ _ _. by exists new.
    + destruct Hpass as (Hbody & Hbs1 & _ & Hgets & _).
      rewrite (bind_return _ _ _ _ _ Hbody).
      match goal with |- context [scrape_loop _ _ rest ?m2] =>
        destruct (IH m2) as (Hbs2 & new & Hnew & Hall & _) end;
        [cbn; lia |].
      cbn -[gets_of] in Hbs2, Hnew, Hall. rewrite Hbs1 in Hbs2. split; [done |].
      exists (batch_ids (batch_size (self m)) (current_id m) ++ new).
      rewrite Hnew, gets_of_app, Hgets. cbn [gets_of omap]. rewrite app_nil_r.
      rewrite <- app_assoc. split; [done |]. split.
      * apply Forall_app. split.
        -- apply Forall_forall. intros id Hid%elem_of_batch_ids. lia.
        -- eapply Forall_impl; [exact Hall |]. cbn. intros id. rewrite Hbs1. lia.
      * intros _ _ _. by exists new.
Qed.

(** The window after a run holds the last 50 durations of the passes that
    completed. *)
Lemma scrape_loop_window start_id end_id envs m hist :
  0 < batch_size (self m) →
  batch_durations m = last_n 50 hist →
  batch_durations (scrape_loop start_id end_id envs m).1
  = last_n 50 (hist ++ completed_durations start_id end_id envs m).
Proof.
  revert m hist. induction envs as [| env rest IH]; intros m hist Hbs Hds.
  - cbn [scrape_loop completed_durations]. rewrite bind_gets, app_nil_r. done.
  - cbn [completed_durations].
    destruct (Z.ltb_spec (current_id m) end_id) as [Hlt | Hge].
    2:{ rewrite scrape_loop_exit, app_nil_r by done. done. }
    rewrite scrape_loop_step by done.
    destruct (loop_head start_id end_id m) as [m0 [[] | e]] eqn:Hhead.
    2:{ rewrite (bind_raise _ _ _ _ _ (loop_body_fatal _ _ _ _ _ _ Hhead)).
        by rewrite app_nil_r. }
    pose proof (loop_body_pass start_id end_id env m m0 Hbs Hhead) as Hpass.
    cbn zeta in Hpass.
    destruct (try_block env m0) as [m1 [[] | e]].
    + destruct Hpass as (Hbody & _ & Hbs1 & _).
      rewrite (bind_return _ _ _ _ _ Hbody), Hbody. cbn [fst].
      rewrite app_assoc. apply IH; cbn; [lia |].
      by rewrite Hds, slide_last_n.
    + destruct Hpass as (Hbody & Hbs1 & _).
      rewrite (bind_return _ _ _ _ _ Hbody), Hbody. cbn [fst app].
      apply IH; cbn; [lia | done].
Qed.
End LoopProperties.

Section SchedulerClaims.
Context `{!Engine} {F : Type} `{!FloatArith F}.
Implicit Types (m : machine F) (sess : session) (env : batch_env F).

Lemma scrape_range_unfold start_id end_id envs m :
  scrape_range start_id end_id envs m
  = scrape_loop start_id end_id envs
      (Machine (self m)
               (resume_point (get_last_id (db (self m))) start_id) []
               (trace m ++ [Print (StartingFrom
                  (resume_point (get_last_id (db (self m))) start_id))])).
Proof. done. Qed.

(** The identifiers requested by a fresh run: none below the resume
    point, which comes first if a pass runs at all. *)
Lemma scrape_range_gets s start_id end_id envs :
  0 < batch_size s →
  let first := resume_point (get_last_id (db s)) start_id in
  let m' := (scrape_range start_id end_id envs (boot s)).1 in
  Forall (λ id, first ≤ id < end_id + batch_size s - 1) (gets_of (trace m'))
  ∧ (envs ≠ [] → first < end_id →
     ∃ more, gets_of (trace m') = seqZ first (batch_size s) ++ more).
Proof.
  intros Hbs first m'. subst m'. rewrite scrape_range_unfold.
  cbn [boot self db trace app]. fold first.
  match goal with |- context [scrape_loop _ _ envs ?m0] =>
    destruct (scrape_loop_gets start_id end_id envs m0 Hbs)
      as (_ & new & Hnew & Hall & Hfirst) end.
  cbn -[gets_of] in Hnew, Hall, Hfirst. cbn [gets_of omap app] in Hnew.
  fold first in Hnew, Hall, Hfirst |- *. rewrite Hnew.
  split; [done |]. intros Henvs Hlt.
  destruct (Hfirst Henvs Hlt eq_refl) as [more ->].
  exists more. by rewrite batch_ids_seqZ.
Qed.

(** C1 (amended).  A fresh run over a store whose largest key is [M],
    [M] other than 0, starts at [M + 1] whatever the configured start: no
    identifier up to [M] is requested, and [M + 1] is the first one
    requested when a pass runs at all; this is
    [max (M + 1) start_id] when [start_id <= M + 1].  Over an empty store
    the run starts at the configured start. *)
Theorem resume_after_last_stored s start_id end_id envs :
  0 < batch_size s →
  get_last_id (db s) ≠ Some 0 →
  let first := match get_last_id (db s) with
               | Some M => M + 1
               | None => start_id
               end in
  let m' := (scrape_range start_id end_id envs (boot s)).1 in
  Forall (λ id, first ≤ id) (gets_of (trace m'))
  ∧ (envs ≠ [] → first < end_id → head (gets_of (trace m')) = Some first)
  ∧ (∀ M, get_last_id (db s) = Some M → start_id ≤ M + 1 →
          first = Z.max (M + 1) start_id).
Proof.
  intros Hbs Hlast first m'.
  assert (Hfirst : first = resume_point (get_last_id (db s)) start_id).
  { unfold resume_point. subst first.
    destruct (get_last_id (db s)) as [M |]; [| done].
    destruct (Z.eqb_spec M 0) as [-> | _]; done. }
  destruct (scrape_range_gets s start_id end_id envs Hbs) as [Hall Hhead].
  fold m' in Hall, Hhead. rewrite <- Hfirst in Hall, Hhead.
  split; [| split].
  - eapply Forall_impl; [exact Hall |]. cbn. lia.
  - intros Henvs Hlt. destruct (Hhead Henvs Hlt) as [more ->].
    rewrite seqZ_cons by done. done.
  - intros M HM Hle. subst first. rewrite HM. lia.
Qed.

(** C2 (amended).  A batch started at [current_id] requests exactly the
    [batch_size] identifiers from [current_id] on, whatever [end_id] is;
    passes start only below [end_id], so every identifier that the loop
    requests is at least [current_id] and below
    [end_id + batch_size - 1]. *)
Theorem batch_is_always_full sess start_id end_id envs m :
  0 < batch_size (self m) →
  let bs := batch_size (self m) in
  (∃ m1 rs, process_batch sess (current_id m) m = (m1, Return rs)
            ∧ gets_of (trace m1)
              = gets_of (trace m) ++ seqZ (current_id m) bs)
  ∧ (∃ new, gets_of (trace (scrape_loop start_id end_id envs m).1)
            = gets_of (trace m) ++ new
            ∧ Forall (λ id, current_id m ≤ id < end_id + bs - 1) new).
Proof.
  intros Hbs bs. split.
  - destruct (process_batch_run sess (current_id m) m) as (a & b & rs & Hpb & _).
    eexists _, rs. split; [exact Hpb |].
    unfold bump; cbn -[gets_of]. by rewrite gets_of_app, gets_of_Get, batch_ids_seqZ.
  - destruct (scrape_loop_gets start_id end_id envs m Hbs)
      as (_ & new & Hnew & Hall & _).
    by exists new.
Qed.

(** C7.  In a pass that has entered its [try] block: if the block raises
    (which only persisting can make it do), the pass prints the error,
    sleeps 60, leaves [current_id], the batch size and the table as they
    were, and the loop goes through its body again from the same
    [current_id]; if the block ends normally, with the results stored by
    one [insert_many] or no results at all, [current_id] grows by exactly
    [batch_size].  A run of the loop that returns has left the loop exactly
    when [current_id >= end_id]: from such a state it leaves at once, and
    from [current_id < end_id] it goes through the body. *)
Theorem retry_same_batch_on_error start_id end_id env rest m m0 :
  0 < batch_size (self m) →
  loop_head start_id end_id m = (m0, Return tt) →
  let bs := batch_size (self m) in
  let cur := current_id m in
  match try_block env m0 with
  | (m1, Raise e) =>
      ∃ m', loop_body start_id end_id env m = (m', Return tt)
        ∧ current_id m' = cur
        ∧ batch_size (self m') = bs
        ∧ db (self m') = db (self m)
        ∧ trace m' = trace m1 ++ [Print (ErrorInBatch cur e); Sleep 60]
        ∧ (∃ rs, (process_batch (sess env) cur m0).2 = Return rs ∧ rs ≠ []
                 ∧ (insert_many (stmts env) (db (self m)) rs).2 = Raise e)
        ∧ (cur < end_id →
           scrape_loop start_id end_id (env :: rest) m
           = scrape_loop start_id end_id rest m')
  | (m1, Return _) =>
      ∃ m', loop_body start_id end_id env m = (m', Return tt)
        ∧ current_id m' = cur + bs
        ∧ batch_size (self m') = bs
        ∧ ∃ rs, (process_batch (sess env) cur m0).2 = Return rs
                ∧ match rs with
                  | [] => db (self m') = db (self m)
                  | _ :: _ => insert_many (stmts env) (db (self m)) rs
                              = (db (self m'), Return tt)
                  end
  end
  ∧ (∀ envs m' st, scrape_loop start_id end_id envs m = (m', Return st) →
                   (st = Exited ↔ end_id ≤ current_id m'))
  ∧ (end_id ≤ cur →
     ∀ envs, scrape_loop start_id end_id envs m = (m, Return Exited))
  ∧ (cur < end_id →
     scrape_loop start_id end_id (env :: rest) m
     = (loop_body start_id end_id env;; scrape_loop start_id end_id rest) m).
Proof.
  intros Hbs Hhead bs cur.
  pose proof (loop_body_pass start_id end_id env m m0 Hbs Hhead) as Hpass.
  cbn zeta in Hpass. split; [| split; [| split]].
  - destruct (try_block env m0) as [m1 [[] | e]].
    + destruct Hpass as (Hbody & _ & Hbs1 & _ & Hdb).
      eexists. split; [exact Hbody |]. by cbn.
    + destruct Hpass as (Hbody & Hbs1 & Hdb & _ & Hrs).
      eexists. split; [exact Hbody |].
      cbn [self current_id batch_size db trace]. repeat split; try done.
      intros Hlt. rewrite scrape_loop_step by done.
      by rewrite (bind_return _ _ _ _ _ Hbody).
  - intros envs m' st. apply scrape_loop_status.
  - intros Hge envs. by apply scrape_loop_exit.
  - apply scrape_loop_step.
Qed.

(** C8.  The line printed at the head of a pass carries
    [int (sum ds / len ds * ((end_id - current_id) / batch_size))] for the
    window [ds] as it stands when the pass starts, and no line is printed
    while the window is empty; the head leaves the window alone.  A pass
    whose [try] block ends normally appends its duration, dropping the
    oldest entry when that makes 51; a pass whose [try] block raises leaves
    the window as it was; the window never grows past 50.  Over a run of
    the loop, the window is the last 50 of the durations of the completed
    passes. *)
Theorem eta_from_completed_batches start_id end_id env envs m m0 :
  0 < batch_size (self m) →
  loop_head start_id end_id m = (m0, Return tt) →
  let bs := batch_size (self m) in
  let cur := current_id m in
  let ds := batch_durations m in
  let d := fsub (batch_end_time env) (batch_start_time env) in
  match ds with
  | [] => trace m0 = trace m
  | _ :: _ =>
      ∃ pct eta,
        trace m0 = trace m ++ [Print (Progress cur end_id pct
                                               (length (db (self m))) eta)]
        ∧ ftrunc (fmul (fdiv_int (fsum ds) (Z.of_nat (length ds)))
                       (truediv (end_id - cur) bs)) = Return eta
  end
  ∧ batch_durations m0 = ds
  ∧ match try_block env m0 with
    | (_, Return _) =>
        batch_durations (loop_body start_id end_id env m).1 = slide ds d
        ∧ ((length ds < 50)%nat → slide ds d = ds ++ [d])
        ∧ (length ds = 50%nat → slide ds d = tail ds ++ [d])
    | (_, Raise _) =>
        batch_durations (loop_body start_id end_id env m).1 = ds
    end
  ∧ ((length ds ≤ 50)%nat →
     (length (batch_durations (loop_body start_id end_id env m).1) ≤ 50)%nat)
  ∧ (∀ hist, ds = last_n 50 hist →
       batch_durations (scrape_loop start_id end_id envs m).1
       = last_n 50 (hist ++ completed_durations start_id end_id envs m)).
Proof.
  intros Hbs Hhead bs cur ds d.
  pose proof (loop_head_run start_id end_id m) as Hrun.
  rewrite Hhead in Hrun. destruct Hrun as (_ & es & -> & _ & Hes).
  pose proof (loop_body_pass start_id end_id env m _ Hbs Hhead) as Hpass.
  cbn zeta in Hpass. fold ds d in Hpass.
  assert (Hslide : match try_block env (bump 0 0 es m) with
    | (_, Return _) =>
        batch_durations (loop_body start_id end_id env m).1 = slide ds d
    | (_, Raise _) =>
        batch_durations (loop_body start_id end_id env m).1 = ds
    end).
  { destruct (try_block env (bump 0 0 es m)) as [m1 [[] | e]];
      destruct Hpass as (-> & _); done. }
  split; [| split; [done |]; split; [| split]].
  - fold ds in Hes. destruct ds as [| d0 ds0].
    + subst es. unfold bump; cbn. by rewrite app_nil_r.
    + destruct Hes as (pct & eta & -> & Heta). by exists pct, eta.
  - destruct (try_block env (bump 0 0 es m)) as [m1 [[] | e]]; [| done].
    split; [done |]. unfold slide. rewrite length_app. cbn [length]. split.
    + intros Hlt. by destruct (Nat.ltb_spec 50 (length ds + 1)); [lia |].
    + intros Heq. destruct (Nat.ltb_spec 50 (length ds + 1)); [| lia].
      destruct ds; [done |]. done.
  - intros Hle. destruct (try_block env (bump 0 0 es m)) as [m1 [[] | e]];
      rewrite Hslide; [by apply length_slide | done].
  - intros hist Hds. by apply scrape_loop_window.
Qed.
End SchedulerClaims.

(* ===================================================================== *)
(** * Properties of the semaphore *)
(* ===================================================================== *)

Import Limiter.

Section LimiterProperties.
Context {F : Type}.
Implicit Types (p : pool F) (ts : list pc) (sess : session).

Lemma count_insert (f : pc → bool) ts i x y :
  ts !! i = Some x →
  (length (filter (λ q, f q = true) (<[i := y]> ts)) + (if f x then 1 else 0)
   = length (filter (λ q, f q = true) ts) + (if f y then 1 else 0))%nat.
Proof.
  intros Hi. rewrite insert_take_drop by (by eapply lookup_lt_Some).
  rewrite <- (take_drop_middle ts i x Hi) at 3.
  rewrite !filter_app, !length_app, !(filter_cons (λ q, f q = true)).
  repeat case_decide; destruct (f x), (f y); cbn [length]; try done; lia.
Qed.

Lemma outstanding_spawn ids : outstanding (Waiting <$> ids) = 0%nat.
Proof. induction ids as [| id ids IH]; [done |]. exact IH. Qed.

Lemma finished_spawn ids : finished (Waiting <$> ids) = 0%nat.
Proof. induction ids as [| id ids IH]; [done |]. exact IH. Qed.

(** What one step does to the counter and to the outstanding fetches. *)
Lemma step_accounting sess p p' :
  step sess p p' →
  (value p = S (value p')
   ∧ outstanding (tasks p') = S (outstanding (tasks p))
   ∧ finished (tasks p') = finished (tasks p)
   ∧ shared p' = shared p)
  ∨ (value p' = S (value p)
     ∧ outstanding (tasks p) = S (outstanding (tasks p'))
     ∧ finished (tasks p') = S (finished (tasks p))
     ∧ length (gets_of (trace (shared p')))
       = S (length (gets_of (trace (shared p))))).
Proof.
  intros [i id v ts m Hi | i id v ts m m' r Hi Hfetch]; cbn [value tasks shared].
  - left. split; [done |].
    pose proof (count_insert is_holding ts i _ (Holding id) Hi) as Ho.
    pose proof (count_insert is_finished ts i _ (Holding id) Hi) as Hf.
    cbn in Ho, Hf. unfold outstanding, finished. repeat split; lia.
  - right. split; [done |].
    pose proof (count_insert is_holding ts i _ (Finished r) Hi) as Ho.
    pose proof (count_insert is_finished ts i _ (Finished r) Hi) as Hf.
    cbn in Ho, Hf. unfold outstanding, finished.
    destruct (get_parcel_info_run sess id m) as (a & b & r' & Hrun & _).
    rewrite Hrun in Hfetch. injection Hfetch as <- <-.
    unfold bump; cbn [trace].
    rewrite gets_of_app, length_app. cbn. repeat split; lia.
Qed.

Lemma reachable_accounting sess ids (m : machine F) p :
  reachable sess ids m p →
  (value p + outstanding (tasks p) = ceiling)%nat
  ∧ length (gets_of (trace (shared p)))
    = (length (gets_of (trace m)) + finished (tasks p))%nat.
Proof.
  unfold reachable. revert p. apply rtc_ind_r; [| intros p p' Hr Hstep IH].
  - unfold spawn. cbn [value tasks shared].
    rewrite outstanding_spawn, finished_spawn. lia.
  - destruct (step_accounting sess p p' Hstep)
      as [(Hv & Ho & Hf & Hs) | (Hv & Ho & Hf & Hs)].
    + rewrite Hs, Hf. lia.
    + lia.
Qed.

(** C9.  In every state that the tasks of a batch can reach, however
    their steps interleave, at most 1000 fetches are outstanding: the
    counter of the semaphore and the outstanding fetches add up to 1000.
    A request has been issued only by the tasks that are past the guarded
    block.  Every step either takes one slot (a task enters the block) or
    gives exactly one back (a task leaves it); and a task inside the block
    can always leave it, giving its slot back, whatever
    [get_parcel_info] comes to. *)
Theorem at_most_ceiling_outstanding sess ids (m : machine F) p :
  reachable sess ids m p →
  (outstanding (tasks p) ≤ ceiling)%nat
  ∧ (value p + outstanding (tasks p) = ceiling)%nat
  ∧ length (gets_of (trace (shared p)))
    = (length (gets_of (trace m)) + finished (tasks p))%nat
  ∧ (∀ p', step sess p p' →
       (value p = S (value p')
        ∧ outstanding (tasks p') = S (outstanding (tasks p)))
       ∨ (value p' = S (value p)
          ∧ outstanding (tasks p) = S (outstanding (tasks p'))))
  ∧ (∀ i id, tasks p !! i = Some (Holding id) →
       ∃ p' r, step sess p p' ∧ value p' = S (value p)
               ∧ tasks p' !! i = Some (Finished r)
               ∧ (get_parcel_info sess id (shared p)).2 = r).
Proof.
  intros Hr. destruct (reachable_accounting sess ids m p Hr) as [Hv Hg].
  split; [lia |]. split; [done |]. split; [done |]. split.
  - intros p' Hstep.
    destruct (step_accounting sess p p' Hstep) as [(? & ? & _) | (? & ? & _)];
      [by left | by right].
  - intros i id Hi. destruct p as [v ts ms]. cbn in *.
    destruct (get_parcel_info sess id ms) as [m' r] eqn:Hfetch.
    exists (Pool (S v) (<[i := Finished r]> ts) m'), r.
    split; [by eapply step_release |]. split; [done |]. split; [| done].
    cbn. apply list_lookup_insert_eq. by eapply lookup_lt_Some.
Qed.
End LimiterProperties.

(* ===================================================================== *)
(** * The claims on concrete runs *)
(* ===================================================================== *)

Import Examples.

(** Over a store whose largest key is 5 and with a configured start of 1,
    the first identifier requested is 6. *)
Lemma resume_after_last_stored_witness :
  head (gets_of (trace (scrape_range 1 9 [Examples.calm]
                          (boot (Self 2 Examples.five 0 0))).1)) = Some 6.
Proof.
  destruct (resume_after_last_stored (Self 2 Examples.five 0 0) 1 9 [Examples.calm])
    as (_ & Hhead & _).
  - cbn. lia.
  - vm_compute. discriminate.
  - apply Hhead; [discriminate | vm_compute; reflexivity].
Defined.

(** C1, as stated, fails: over a store whose largest key is 5, the run
    that [main] configures (start 5625555) requests 6 first, not
    [max (5 + 1) 5625555]. *)
Lemma first_fetch_is_not_the_max_counterexample :
  let s := init (Some Examples.five) in
  let m' := (scrape_range 5625555 40150506 [Examples.calm] (boot s)).1 in
  get_last_id (db s) = Some 5
  ∧ head (gets_of (trace m')) = Some 6
  ∧ head (gets_of (trace m')) ≠ Some (Z.max (5 + 1) 5625555).
Proof.
  intros s m'.
  assert (Hhead : head (gets_of (trace m')) = Some 6).
  { destruct (scrape_range_gets s 5625555 40150506 [Examples.calm])
      as [_ Hfirst]; [cbn; lia |].
    destruct Hfirst as [more Hmore]; [discriminate | vm_compute; reflexivity |].
    subst m'. rewrite Hmore.
    change (resume_point (get_last_id (db s)) 5625555) with 6.
    rewrite seqZ_cons by (cbn; lia). done. }
  split; [reflexivity |]. split; [exact Hhead |].
  rewrite Hhead. vm_compute. discriminate.
Qed.

(** A batch of 3 started at 8 requests 8, 9 and 10, with [end_id] at 10. *)
Lemma batch_is_always_full_witness :
  let m := Machine (F := Z) (Self 3 [] 0 0) 8 [] [] in
  ∃ m1 rs, process_batch Examples.answers_all 8 m = (m1, Return rs)
           ∧ gets_of (trace m1) = [8; 9; 10].
Proof.
  intros m.
  destruct (batch_is_always_full Examples.answers_all 5 10 [Examples.calm] m)
    as [(m1 & rs & Hpb & Hgets) _]; [cbn; lia |].
  exists m1, rs. split; [exact Hpb |]. exact Hgets.
Defined.

(** C2, as stated, fails: with the batch size of [__init__] and the
    [end_id] of [main], the batch started at 40145555 (below [end_id])
    requests [end_id] itself. *)
Lemma final_batch_overshoots_counterexample :
  let m := Machine (F := Z) (init None) 40145555 [] [] in
  let m' := (scrape_loop 5625555 40150506 [Examples.calm] m).1 in
  current_id m < 40150506
  ∧ 40150506 ∈ gets_of (trace m')
  ∧ ¬ Forall (λ id, current_id m ≤ id < 40150506) (gets_of (trace m')).
Proof.
  intros m m'.
  assert (Hin : 40150506 ∈ gets_of (trace m')).
  { destruct (scrape_loop_gets 5625555 40150506 [Examples.calm] m)
      as (_ & new & Hnew & _ & Hfirst); [cbn; lia |].
    destruct Hfirst as [more ->]; [discriminate | cbn; lia | reflexivity |].
    subst m'. rewrite Hnew. apply elem_of_app. right.
    apply elem_of_app. left. apply elem_of_batch_ids. cbn. lia. }
  split; [cbn; lia |]. split; [exact Hin |].
  intros Hall. rewrite Forall_forall in Hall. specialize (Hall _ Hin). lia.
Qed.

(** A pass whose results cannot be stored: the error is printed, the pass
    sleeps 60 and [current_id] stays at 5; with results that can be stored
    it moves on to 7. *)
Lemma retry_same_batch_on_error_witness :
  let m := Machine (F := Z) (Self 2 [] 0 0) 5 [] [] in
  (∃ m', loop_body 5 9 Examples.stormy m = (m', Return tt)
         ∧ current_id m' = 5
         ∧ trace m' = [Get 5; Get 6;
                       Print (ErrorInBatch 5
                                (DatabaseError "Error binding parameter"));
                       Sleep 60])
  ∧ (∃ m', loop_body 5 9 Examples.calm m = (m', Return tt) ∧ current_id m' = 7).
Proof.
  intros m. split.
  - destruct (retry_same_batch_on_error 5 9 Examples.stormy [] m m)
      as [Hpass _]; [cbn; lia | reflexivity |].
    change (try_block Examples.stormy m)
      with (Machine (F := Z) (Self 2 [] 2 0) 5 [] [Get 5; Get 6],
            Raise (A := unit) (DatabaseError "Error binding parameter"))
      in Hpass.
    destruct Hpass as (m' & Hbody & Hcur & _ & _ & Htrace & _).
    exists m'. split; [exact Hbody |]. split; [exact Hcur |]. exact Htrace.
  - destruct (retry_same_batch_on_error 5 9 Examples.calm [] m m)
      as [Hpass _]; [cbn; lia | reflexivity |].
    destruct (try_block Examples.calm m) as [m1 [[] | e]] eqn:Htry;
      [| vm_compute in Htry; discriminate].
    destruct Hpass as (m' & Hbody & Hcur & _).
    exists m'. split; [exact Hbody |]. exact Hcur.
Defined.

(** With two completed batches of 7 seconds in the window, 12 identifiers
    to go and batches of 3, the line printed shows 28 seconds. *)
Lemma eta_from_completed_batches_witness :
  let m := Machine (F := Z) (Self 3 [] 0 0) 8 [7; 7] [] in
  let m0 := Machine (F := Z) (Self 3 [] 0 0) 8 [7; 7]
                    [Print (Progress 8 20 0 0 28)] in
  loop_head 5 20 m = (m0, Return tt)
  ∧ batch_durations (loop_body 5 20 Examples.calm m).1 = [7; 7; 7].
Proof.
  intros m m0.
  assert (Hhead : loop_head 5 20 m = (m0, Return tt)) by (vm_compute; reflexivity).
  split; [exact Hhead |].
  destruct (eta_from_completed_batches 5 20 Examples.calm [] m m0)
    as (_ & _ & Hwin & _); [cbn; lia | exact Hhead |].
  assert (Htry : try_block Examples.calm m0
                 = (Machine (Self 3 (db (self (try_block Examples.calm m0).1)) 3 0) 8 [7; 7; 7]
                      (trace (try_block Examples.calm m0).1), Return tt))
    by (vm_compute; reflexivity).
  rewrite Htry in Hwin. by destruct Hwin as [-> _].
Defined.

(** Two tasks, one of which has entered the guarded block. *)
Lemma at_most_ceiling_outstanding_witness :
  let m := boot (F := Z) (Self 2 [] 0 0) in
  let p := Pool 999 [Holding 7; Waiting 8] m in
  (outstanding (tasks p) ≤ 1000)%nat
  ∧ ∃ p' r, step Examples.answers_all p p' ∧ value p' = 1000%nat
            ∧ tasks p' !! 0%nat = Some (Finished r).
Proof.
  intros m p.
  destruct (at_most_ceiling_outstanding Examples.answers_all [7; 8] m p)
    as (Hle & _ & _ & _ & Hrel).
  - eapply rtc_l; [| apply rtc_refl].
    exact (step_acquire _ 0 7 999 [Waiting 7; Waiting 8] m eq_refl).
  - split; [exact Hle |].
    destruct (Hrel 0%nat 7 eq_refl) as (p' & r & Hstep & Hv & Ht & _).
    by exists p', r.
Defined.

(** C10.  The [parcel_id] of a record that a fetch returns is what the
    body has under [parcelId], whatever identifier was requested: for any
    requested identifier there are answers that give a record without
    [parcel_id] and answers that give a record with any other integer; and
    a pass over [5, 8) whose answers all carry parcel 1000 stores key 1000
    and nothing else. *)
Theorem stored_key_is_what_the_body_says :
  (∀ F sess id (m : machine F) d,
     (get_parcel_info sess id m).2 = Return (Some d) →
     ∃ content, sess id = Response 200 (JsonValue content)
                ∧ py_get content "parcelId" = Return (parcel_id d))
  ∧ (∀ F id (m : machine F),
       ∃ sess d, (get_parcel_info sess id m).2 = Return (Some d)
                 ∧ parcel_id d = PNone)
  ∧ (∀ F id (m : machine F) k,
       ∃ sess d, (get_parcel_info sess id m).2 = Return (Some d)
                 ∧ parcel_id d = PInt k)
  ∧ keys (db (self (scrape_range 5 8
                      [BatchEnv Examples.elsewhere 10 17 Examples.quiet]
                      (boot (F := Z) (Self 3 [] 0 0))).1)) = [1000].
Proof.
  split; [| split; [| split]].
  - intros F sess id m d. apply parcel_id_from_body.
  - intros F id m.
    exists (λ _, Response 200 (JsonValue (PDict (<["address" := PStr "x"]> ∅)))).
    eexists. split; [| shelve].
    eapply get_parcel_info_of_body; reflexivity.
    Unshelve. reflexivity.
  - intros F id m k.
    exists (λ _, Response 200 (JsonValue (Examples.body_with_id k))).
    eexists. split; [| shelve].
    eapply get_parcel_info_of_body; reflexivity.
    Unshelve. reflexivity.
  - reflexivity.
Qed.

(* ===================================================================== *)
(** * Further properties *)
(* ===================================================================== *)

Section MoreFetch.
Context {F : Type}.
Implicit Types (m : machine F) (sess : session) (id : Z).

(** A fetch, as a function of the exchange alone. *)
Lemma get_parcel_info_eq sess id m :
  get_parcel_info sess id m
  = (bump (counted (sess id)).1 (counted (sess id)).2 [Get id] m,
     Return (fetched (sess id))).
Proof.
  destruct m as [[bs t ok ko] cur ds tr].
  unfold bump, fetched, counted, extract. run_M.
  destruct (sess id) as [e | st [e | content]]; cbn [negb fst snd]; [done | |].
  - by destruct (st =? 200).
  - destruct (st =? 200); cbn [negb]; [| done].
    destruct (truthy content); cbn [negb]; [| done].
    run_result.
    destruct (initial_data content) as [d | e]; [| done].
    by destruct (fill_owner content d) as [d' | e].
Qed.

Lemma counted_bounds o :
  ((counted o).1 ≤ 1 ∧ (counted o).2 ≤ 1 ∧ 1 ≤ (counted o).1 + (counted o).2)%nat.
Proof.
  destruct o as [e | st [e | content]]; cbn; [lia | |].
  - destruct (st =? 200); cbn; lia.
  - destruct (st =? 200); cbn; [| lia].
    destruct (truthy content); cbn; [| lia].
    destruct (extract content); cbn; lia.
Qed.

(** X1.  A fetch issues one request, for the identifier it was given, and
    changes nothing else than the two counters: each grows by at most one
    and at least one of them grows. *)
Theorem fetch_changes_counters_and_trace_only sess id m :
  let m' := (get_parcel_info sess id m).1 in
  batch_size (self m') = batch_size (self m)
  ∧ db (self m') = db (self m)
  ∧ current_id m' = current_id m
  ∧ batch_durations m' = batch_durations m
  ∧ trace m' = trace m ++ [Get id]
  ∧ (successful_requests (self m) ≤ successful_requests (self m')
     ≤ S (successful_requests (self m)))%nat
  ∧ (failed_requests (self m) ≤ failed_requests (self m')
     ≤ S (failed_requests (self m)))%nat
  ∧ (S (successful_requests (self m) + failed_requests (self m))
     ≤ successful_requests (self m') + failed_requests (self m'))%nat.
Proof.
  rewrite get_parcel_info_eq. cbn.
  pose proof (counted_bounds (sess id)). repeat split; lia.
Qed.

Lemma scan_sheets_keeps_scalars sheets data d :
  scan_sheets sheets data = Return d →
  municipality_name d = municipality_name data
  ∧ parcel_number d = parcel_number data
  ∧ address d = address data ∧ area d = area data.
Proof.
  induction sheets as [| sheet rest IH]; cbn [scan_sheets]; run_result.
  - by intros [= <-].
  - destruct (py_get sheet "possessors") as [ps |]; [| done].
    destruct (truthy ps); [| exact IH].
    destruct (py_getitem sheet "possessors") as [ps' |]; [| done].
    destruct (py_index0 ps') as [p |]; [| done].
    destruct (py_get p "name"); [| done].
    destruct (py_get p "ownership"); [| done].
    destruct (py_get p "address"); [| done].
    by intros [= <-].
Qed.

Lemma fill_owner_keeps_scalars content data d :
  fill_owner content data = Return d →
  municipality_name d = municipality_name data
  ∧ parcel_number d = parcel_number data
  ∧ address d = address data ∧ area d = area data.
Proof.
  unfold fill_owner. run_result.
  destruct (py_get content "possessionSheets") as [v |]; [| done].
  destruct (truthy v); [| by intros [= <-]].
  destruct (py_getitem content "possessionSheets") as [v' |]; [| done].
  destruct (py_iter v') as [sheets |]; [| done].
  apply scan_sheets_keeps_scalars.
Qed.

(** X2.  The municipality name, parcel number, address and area of a
    returned record are the entries of the body under
    [cadMunicipalityName], [parcelNumber], [address] and [area] ([None]
    when missing), whatever the owner extraction did. *)
Theorem scalar_fields_from_body sess id m d :
  (get_parcel_info sess id m).2 = Return (Some d) →
  ∃ content,
    sess id = Response 200 (JsonValue content)
    ∧ py_get content "cadMunicipalityName" = Return (municipality_name d)
    ∧ py_get content "parcelNumber" = Return (parcel_number d)
    ∧ py_get content "address" = Return (address d)
    ∧ py_get content "area" = Return (area d).
Proof.
  intros (content & data & Hs & _ & Hi & Hf)%get_parcel_info_some.
  exists content. split; [done |].
  apply fill_owner_keeps_scalars in Hf as (-> & -> & -> & ->).
  destruct content; try done. cbn in Hi. injection Hi as <-. done.
Qed.

Lemma fetched_some sess id m d :
  fetched (sess id) = Some d → (get_parcel_info sess id m).2 = Return (Some d).
Proof. intros Hf. by rewrite get_parcel_info_eq, Hf. Qed.

(** X3.  A non-empty object body whose [possessionSheets] entry is missing
    or falsy always gives a record, with the three owner fields [None]. *)
Theorem no_sheets_no_owner sess id m c :
  sess id = Response 200 (JsonValue (PDict c)) →
  c ≠ ∅ →
  truthy (default PNone (c !! "possessionSheets")) = false →
  ∃ d, (get_parcel_info sess id m).2 = Return (Some d)
       ∧ owner_matches None d
       ∧ parcel_id d = default PNone (c !! "parcelId").
Proof.
  intros Hs Hc Hps. eexists. split; [| split].
  - eapply get_parcel_info_of_body; [exact Hs | | reflexivity |].
    + cbn. by rewrite bool_decide_eq_false_2.
    + unfold fill_owner. cbn [py_get]. run_result. rewrite Hps. reflexivity.
  - done.
  - done.
Qed.

Lemma scan_sheets_not_dict x rest data :
  is_dict x = false → raised (scan_sheets (x :: rest) data).
Proof. by destruct x. Qed.

(** X4.  A [possessionSheets] entry that is truthy and not a list (a
    string, a number, [true], a non-empty object) gives no record: the
    fetch returns [None] and is counted both as successful and as
    failed. *)
Theorem sheets_not_a_list_lose_the_record sess id m c v :
  sess id = Response 200 (JsonValue (PDict c)) →
  c !! "possessionSheets" = Some v →
  truthy v = true → is_list v = false →
  (get_parcel_info sess id m).2 = Return None
  ∧ successful_requests (self (get_parcel_info sess id m).1)
    = S (successful_requests (self m))
  ∧ failed_requests (self (get_parcel_info sess id m).1)
    = S (failed_requests (self m)).
Proof.
  intros Hs Hv Ht Hl. rewrite get_parcel_info_eq. cbn [fst snd].
  unfold fetched, counted. rewrite Hs. cbn [negb Z.eqb Pos.eqb].
  assert (Hc : truthy (PDict c) = true).
  { cbn. rewrite bool_decide_eq_false_2; [done |]. intros ->.
    by rewrite lookup_empty in Hv. }
  rewrite Hc. cbn [negb].
  assert (Hx : raised (extract (PDict c))).
  { unfold extract, fill_owner. cbn [initial_data py_get py_getitem].
    run_result. rewrite Hv. cbn [initial_data py_get from_option Datatypes.id].
    run_result. rewrite Ht.
    destruct v as [| [] | z | f | s | l | d]; try done.
    - destruct s as [| a s]; [done |]. cbn [py_iter].
      by destruct (chars_cons a s) as (x & l & ->).
    - cbn in Ht. apply negb_true_iff, bool_decide_eq_false in Ht.
      destruct (map_to_list_nonempty d Ht) as (k & w & l & Hkl).
      cbn [py_iter]. rewrite Hkl. done. }
  destruct (extract (PDict c)); [done |]. cbn. repeat split; lia.
Qed.

(** X5.  A truthy body that is not an object (a list, a string, a number)
    gives no record and is counted both as successful and as failed. *)
Theorem body_not_an_object_counts_twice sess id m content :
  sess id = Response 200 (JsonValue content) →
  truthy content = true → is_dict content = false →
  (get_parcel_info sess id m).2 = Return None
  ∧ successful_requests (self (get_parcel_info sess id m).1)
    = S (successful_requests (self m))
  ∧ failed_requests (self (get_parcel_info sess id m).1)
    = S (failed_requests (self m)).
Proof.
  intros Hs Ht Hd. rewrite get_parcel_info_eq. cbn [fst snd].
  unfold fetched, counted. rewrite Hs. cbn [negb Z.eqb Pos.eqb].
  rewrite Ht. cbn [negb].
  assert (Hx : raised (extract content)) by (by destruct content).
  destruct (extract content); [done |]. cbn. repeat split; lia.
Qed.

Lemma scan_sheets_break pre s post data :
  possessors_of s ≠ [] →
  scan_sheets (pre ++ s :: post) data = scan_sheets (pre ++ [s]) data.
Proof.
  intros Hs. induction pre as [| x pre IH]; cbn [app scan_sheets]; run_result.
  - destruct s as [| | | | | | d0]; try done. cbn in Hs |- *.
    destruct (d0 !! "possessors") as [[| | | | | [| p ps] |] |]; try done.
  - destruct (py_get x "possessors") as [ps |]; [| done].
    destruct (truthy ps); [done | exact IH].
Qed.

(** X6.  The sheets after the first one that lists possessors are not
    looked at: whatever follows it, malformed entries included, the fetch
    returns what it returns without them. *)
Theorem later_sheets_are_ignored id m c pre s post :
  possessors_of s ≠ [] →
  (get_parcel_info
     (λ _, Response 200 (JsonValue (with_sheets c (PList (pre ++ s :: post)))))
     id m).2
  = (get_parcel_info
       (λ _, Response 200 (JsonValue (with_sheets c (PList (pre ++ [s])))))
       id m).2.
Proof.
  intros Hs. rewrite !get_parcel_info_eq. cbn [snd]. f_equal.
  unfold fetched, with_sheets. cbn [negb Z.eqb Pos.eqb].
  assert (Ht : ∀ v, truthy (PDict (<["possessionSheets" := v]> c)) = true).
  { intros v. cbn. rewrite bool_decide_eq_false_2; [done |].
    apply insert_non_empty. }
  rewrite !Ht. cbn [negb].
  unfold extract, fill_owner, initial_data. cbn [py_get py_getitem]. run_result.
  rewrite !lookup_insert_eq, !lookup_insert_ne by done.
  cbn [from_option Datatypes.id py_iter].
  assert (Hne : ∀ post', truthy (PList (pre ++ s :: post')) = true)
    by (intros post'; by destruct pre).
  rewrite (Hne post), (Hne []). by rewrite scan_sheets_break.
Qed.

Lemma scan_sheets_malformed pre x post data :
  forallb no_possessors pre = true → is_dict x = false →
  raised (scan_sheets (pre ++ x :: post) data).
Proof.
  intros Hpre Hx. induction pre as [| s pre IH]; cbn [app].
  - by apply scan_sheets_not_dict.
  - cbn in Hpre. apply andb_prop in Hpre as [Hs Hpre].
    cbn [scan_sheets]. run_result.
    destruct s as [| | | | | | d0]; try done. cbn in Hs |- *.
    apply negb_true_iff in Hs. rewrite Hs. by apply IH.
Qed.

(** X7.  An element of the sheet list that is not an object, met before
    any sheet with possessors, loses the whole record: the fetch returns
    [None] and counts a failure. *)
Theorem malformed_sheet_loses_the_record id m c pre x post :
  forallb no_possessors pre = true → is_dict x = false →
  let sess : session :=
    λ _, Response 200 (JsonValue (with_sheets c (PList (pre ++ x :: post)))) in
  (get_parcel_info sess id m).2 = Return None
  ∧ failed_requests (self (get_parcel_info sess id m).1)
    = S (failed_requests (self m)).
Proof.
  intros Hpre Hx sess. rewrite get_parcel_info_eq. cbn [fst snd].
  unfold fetched, counted, sess, with_sheets. cbn [negb Z.eqb Pos.eqb].
  assert (Ht : truthy (PDict (<["possessionSheets" := PList (pre ++ x :: post)]> c)) = true).
  { cbn. rewrite bool_decide_eq_false_2; [done |]. apply insert_non_empty. }
  rewrite Ht. cbn [negb].
  assert (Hr : raised (extract (PDict (<["possessionSheets" := PList (pre ++ x :: post)]> c)))).
  { unfold extract, fill_owner, initial_data. cbn [py_get py_getitem].
    run_result. rewrite !lookup_insert_eq. cbn [from_option Datatypes.id py_iter].
    assert (Hne : truthy (PList (pre ++ x :: post)) = true) by (by destruct pre).
    rewrite Hne. by apply scan_sheets_malformed. }
  destruct (extract _); [done |]. cbn. split; [done | lia].
Qed.
End MoreFetch.

Section MoreSqlite.
Context `{!Engine}.
Implicit Types (t : table) (p q : parcel_data) (k : Z) (r : row).

Lemma max_key_elem t M : max_key t = Some M → M ∈ keys t.
Proof.
  revert M. induction t as [| r t IH]; intros M; [done |]. cbn.
  destruct (max_key t) as [m |] eqn:Hm; intros [= <-].
  - destruct (Z.max_spec (row_parcel_id r) m) as [[_ ->] | [_ ->]].
    + right. by apply IH.
    + left.
  - left.
Qed.

Lemma min_key_None t : min_key t = None → t = [].
Proof. destruct t as [| r t]; [done |]. cbn. by destruct (min_key t). Qed.

Lemma min_key_elem t M : min_key t = Some M → M ∈ keys t.
Proof.
  revert M. induction t as [| r t IH]; intros M; [done |]. cbn.
  destruct (min_key t) as [m |] eqn:Hm; intros [= <-].
  - destruct (Z.min_spec (row_parcel_id r) m) as [[_ ->] | [_ ->]].
    + left.
    + right. by apply IH.
  - left.
Qed.

Lemma min_key_bound t m k : min_key t = Some m → k ∈ keys t → m ≤ k.
Proof.
  revert m. induction t as [| r t IH]; intros m; [done |].
  cbn. intros Hm [-> | Hin]%elem_of_cons.
  - destruct (min_key t); injection Hm as <-; lia.
  - destruct (min_key t) as [m' |] eqn:Hm'.
    + injection Hm as <-. specialize (IH m' eq_refl Hin). lia.
    + apply min_key_None in Hm' as ->. by apply elem_of_nil in Hin.
Qed.

(** X8.  [get_last_id] is [None] exactly on the empty table; otherwise it
    is a stored key and no stored key is larger. *)
Theorem get_last_id_is_the_largest_key t :
  (get_last_id t = None ↔ t = [])
  ∧ (∀ M, get_last_id t = Some M →
          M ∈ keys t ∧ ∀ k, k ∈ keys t → k ≤ M).
Proof.
  unfold get_last_id. split.
  - split; [apply max_key_None | by intros ->].
  - intros M HM. split; [by apply max_key_elem |].
    intros k. by apply max_key_bound.
Qed.

(** X9.  The figures of [get_stats]: the count is the number of rows,
    [max_id] is what [get_last_id] returns, [min_id] and [max_id] are
    [None] exactly when the count is 0, and otherwise they are stored keys
    that bound every stored key. *)
Theorem get_stats_is_consistent t :
  let s := get_stats t in
  count s = length t
  ∧ max_id s = get_last_id t
  ∧ (count s = 0%nat ↔ min_id s = None)
  ∧ (count s = 0%nat ↔ max_id s = None)
  ∧ (∀ lo hi, min_id s = Some lo → max_id s = Some hi →
       lo ∈ keys t ∧ hi ∈ keys t ∧ lo ≤ hi
       ∧ ∀ k, k ∈ keys t → lo ≤ k ≤ hi).
Proof.
  cbn. split; [done |]. split; [done |]. split; [| split].
  - split.
    + by intros ->%nil_length_inv.
    + by intros ->%min_key_None.
  - split.
    + by intros ->%nil_length_inv.
    + by intros ->%max_key_None.
  - intros lo hi Hlo Hhi.
    pose proof (min_key_elem _ _ Hlo) as Hin.
    split; [done |]. split; [by apply max_key_elem |].
    split; [by eapply max_key_bound |].
    intros k Hk. split; [by eapply min_key_bound | by eapply max_key_bound].
Qed.

Lemma keys_replace_subseteq k t r :
  row_parcel_id r = k → keys t ⊆ keys (delete_key k t ++ [r]).
Proof.
  intros Hr x (r' & -> & Hin)%list_elem_of_fmap.
  unfold keys. rewrite fmap_app. apply elem_of_app.
  destruct (decide (row_parcel_id r' = k)) as [Heq | Hne].
  - right. cbn. rewrite Hr, Heq. left.
  - left. apply list_elem_of_fmap_2. by apply list_elem_of_filter.
Qed.

Lemma keys_replace_elem k t r :
  row_parcel_id r = k → k ∈ keys (delete_key k t ++ [r]).
Proof.
  intros Hr. unfold keys. rewrite fmap_app. apply elem_of_app. right.
  cbn. rewrite Hr. left.
Qed.

Lemma executemany_keys_subseteq env i t rs :
  keys t ⊆ keys (executemany env i t rs).1.
Proof.
  revert i t. induction rs as [| p rs IH]; intros i t; [done |].
  cbn. destruct (fault env i); [done |].
  destruct (insert_or_replace (now env i) t p) as [t1 |] eqn:Hi; [| done].
  apply insert_or_replace_inv in Hi as (k & r & Hr & -> & _).
  apply row_for_key in Hr.
  etrans; [by apply keys_replace_subseteq | apply IH].
Qed.

Lemma insert_many_keys_subseteq env t rs :
  keys t ⊆ keys (insert_many env t rs).1.
Proof.
  unfold insert_many.
  pose proof (executemany_keys_subseteq env 0 t rs) as Hsub.
  destruct (executemany env 0 t rs) as [t' [[] | e]]; done.
Qed.

Lemma max_key_mono t t' M :
  keys t ⊆ keys t' → max_key t = Some M →
  ∃ M', max_key t' = Some M' ∧ M ≤ M'.
Proof.
  intros Hsub HM. apply max_key_elem, Hsub in HM.
  destruct (max_key t') as [M' |] eqn:HM'.
  - exists M'. split; [done |]. by eapply max_key_bound.
  - apply max_key_None in HM' as ->. by apply elem_of_nil in HM.
Qed.

(** X10.  A call of [insert_many], returning or raising, removes no key:
    every key stored before is stored after, the number of rows does not
    go down (keys being distinct), and [get_last_id] does not go down. *)
Theorem insert_many_never_deletes env t rs :
  let t' := (insert_many env t rs).1 in
  keys t ⊆ keys t'
  ∧ (NoDup (keys t) → (length t ≤ length t')%nat)
  ∧ (∀ M, get_last_id t = Some M →
          ∃ M', get_last_id t' = Some M' ∧ M ≤ M').
Proof.
  pose proof (insert_many_keys_subseteq env t rs) as Hsub.
  cbn zeta. split; [done |]. split.
  - intros Hnd.
    rewrite <- (length_fmap row_parcel_id t),
            <- (length_fmap row_parcel_id (insert_many env t rs).1).
    apply submseteq_length, NoDup_submseteq; [done |]. apply Hsub.
  - intros M. by apply max_key_mono.
Qed.

Lemma executemany_stores_key env i t rs t' p k :
  executemany env i t rs = (t', Return tt) →
  p ∈ rs → explicit_key p = Some k → k ∈ keys t'.
Proof.
  intros Hrun (pre & post & ->)%list_elem_of_split Hk.
  apply executemany_app_inv in Hrun as (t1 & _ & Hrun).
  apply executemany_cons_inv in Hrun as (_ & t2 & Hi & Hrest).
  apply insert_or_replace_inv in Hi as (k' & r & Hr & -> & Hkey).
  assert (k' = k) as -> by (destruct Hkey as [? | [? _]]; congruence).
  apply row_for_key in Hr.
  pose proof (executemany_keys_subseteq env (S (i + length pre))
                (delete_key k t1 ++ [r]) post) as Hsub.
  rewrite Hrest in Hsub. apply Hsub. by apply keys_replace_elem.
Qed.

(** X11.  After a call of [insert_many] that returns, every key asked for
    by a record of the call is stored and [get_last_id] is at least that
    key. *)
Theorem get_last_id_after_insert_many env t rs t' p k :
  insert_many env t rs = (t', Return tt) →
  p ∈ rs → explicit_key p = Some k →
  k ∈ keys t' ∧ ∃ M, get_last_id t' = Some M ∧ k ≤ M.
Proof.
  intros Hcall%insert_many_ok Hp Hk.
  pose proof (executemany_stores_key _ _ _ _ _ _ _ Hcall Hp Hk) as Hin.
  split; [done |]. unfold get_last_id.
  destruct (max_key t') as [M |] eqn:HM.
  - exists M. split; [done |]. by eapply max_key_bound.
  - apply max_key_None in HM as ->. by apply elem_of_nil in Hin.
Qed.

(** X12.  A call of [insert_many] that returns leaves the row of a stored
    key as it was when no record of the call asks for that key. *)
Theorem insert_many_keeps_other_parcels env t rs t' k :
  insert_many env t rs = (t', Return tt) →
  rows_at k t ≠ [] →
  Forall (λ q, explicit_key q ≠ Some k) rs →
  rows_at k t' = rows_at k t.
Proof.
  intros Hcall%insert_many_ok Hk Hrs. by eapply executemany_keeps.
Qed.

(** [bindable] says when the adapter returns. *)
Lemma bindable_eq v :
  bindable v = match bind_param v with Return _ => true | Raise _ => false end.
Proof.
  destruct v as [| b | z | f | s | l | d]; cbn; try done.
  - by destruct (_ && _).
  - by destruct f.
  - by destruct (has_surrogate s).
Qed.

Lemma integer_key_explicit p k :
  integer_key p = Some k →
  bind_param (parcel_id p) = Return (SInt k) ∧ explicit_key p = Some k.
Proof.
  unfold integer_key, explicit_key.
  destruct (parcel_id p) as [| b | z | | | |]; try done; cbn.
  - by intros [= <-].
  - destruct (_ && _); [| done]. by intros [= <-].
Qed.

Lemma storable_inserts ts t p :
  storable p = true → ∃ t', insert_or_replace ts t p = Return t'.
Proof.
  unfold storable, other_fields, insert_or_replace. cbn [forallb].
  rewrite !bindable_eq. run_result.
  intros [[k Hk]%bool_decide_eq_true Hp]%andb_prop.
  apply integer_key_explicit in Hk as [-> _].
  repeat (apply andb_prop in Hp as [? Hp]).
  repeat (match goal with
          | H : match bind_param ?v with _ => _ end = true |- _ =>
              destruct (bind_param v); [clear H | discriminate H]
          end).
  cbn. eauto.
Qed.

(** X13.  A batch whose records all have an integer key and fields that the
    adapter can bind is stored, when the engine reports no error: the call
    returns, every key of the batch is a key of the table, and the row of
    each record is in the table under its key, unless a later record of
    the batch has the same key. *)
Theorem storable_batch_is_stored env t rs :
  forallb storable rs = true →
  (∀ i, fault env i = None) →
  ∃ t', insert_many env t rs = (t', Return tt)
    ∧ ∀ i p, rs !! i = Some p →
        ∃ k r, integer_key p = Some k
               ∧ row_for k (now env i) p = Return r
               ∧ k ∈ keys t'
               ∧ (r ∈ t'
                  ∨ ∃ j q, (i < j)%nat ∧ rs !! j = Some q
                           ∧ integer_key q = Some k).
Proof.
  intros Hrs Hfault.
  assert (Hrun : ∀ rs0 i t0, forallb storable rs0 = true →
                  ∃ t', executemany env i t0 rs0 = (t', Return tt)).
  { induction rs0 as [| p rs0 IH]; intros i t0 Hrs0; [by eexists |].
    cbn in Hrs0. apply andb_prop in Hrs0 as [Hp Hrs0].
    cbn. rewrite Hfault.
    destruct (storable_inserts (now env i) t0 p Hp) as [t1 ->].
    by apply IH. }
  destruct (Hrun rs 0%nat t Hrs) as [t' Ht']. exists t'. split.
  { unfold insert_many. by rewrite Ht'. }
  assert (Hkey : ∀ q, q ∈ rs → ∃ k, integer_key q = Some k).
  { intros q Hq. rewrite forallb_forall in Hrs.
    apply list_elem_of_In, Hrs in Hq. unfold storable in Hq.
    by apply andb_prop in Hq as [Hq%bool_decide_eq_true _]. }
  intros i p Hp.
  destruct (Hkey p (list_elem_of_lookup_2 _ _ _ Hp)) as [k Hk].
  pose proof (integer_key_explicit _ _ Hk) as [_ Hek].
  destruct (executemany_stores _ _ _ _ _ _ _ Ht' Hp)
    as (k' & r & Hr & Htie & Hin).
  rewrite (Htie k Hek) in Hr, Hin. exists k, r.
  split; [done |]. split; [done |]. split.
  { eapply executemany_stores_key; [exact Ht' | | exact Hek].
    by eapply list_elem_of_lookup_2. }
  destruct Hin as [Hin | (j & q & Hlt & Hj & Hq)]; [by left |].
  right. exists j, q. split; [done |]. split; [done |].
  destruct (Hkey q (list_elem_of_lookup_2 _ _ _ Hj)) as [kq Hkq].
  pose proof (integer_key_explicit _ _ Hkq) as [_ Hekq]. congruence.
Qed.

Lemma unbindable_raises ts t p :
  forallb bindable (parcel_id p :: other_fields p) = false →
  raised (insert_or_replace ts t p).
Proof.
  unfold other_fields, insert_or_replace. cbn [forallb].
  rewrite !bindable_eq. run_result.
  intros Hp.
  repeat (match goal with
          | |- context [bind_param ?v] => destruct (bind_param v); [| done]
          end).
  done.
Qed.

(** X14.  One record with a field that the adapter cannot bind (a list, an
    object, an integer beyond 64 bits, a [str] with a surrogate) makes
    [insert_many] raise, and the table stays as it was. *)
Theorem unbindable_field_fails_the_batch env t rs p :
  p ∈ rs →
  forallb bindable (parcel_id p :: other_fields p) = false →
  raised (insert_many env t rs).2 ∧ (insert_many env t rs).1 = t.
Proof.
  intros Hp Hbad.
  destruct (insert_many env t rs) as [t' [[] | e]] eqn:Hcall; cbn.
  - exfalso. apply insert_many_ok in Hcall.
    apply list_elem_of_split in Hp as (pre & post & ->).
    apply executemany_app_inv in Hcall as (t1 & _ & Hrun).
    apply executemany_cons_inv in Hrun as (_ & t2 & Hi & _).
    pose proof (unbindable_raises (now env (0 + length pre)) t1 p Hbad) as Hr.
    by rewrite Hi in Hr.
  - split; [done |]. unfold insert_many in Hcall.
    destruct (executemany env 0 t rs) as [? [[] |]]; by simplify_eq.
Qed.

Lemma delete_key_fresh k t : k ∉ keys t → delete_key k t = t.
Proof.
  unfold delete_key. induction t as [| r t IH]; [done |].
  intros Hk. rewrite filter_cons_True.
  - f_equal. apply IH. intros Hin. apply Hk. by right.
  - intros Heq. apply Hk. cbn. rewrite Heq. left.
Qed.

Lemma max_key_snoc t r :
  max_key (t ++ [r])
  = Some (match max_key t with
          | Some m => Z.max m (row_parcel_id r)
          | None => row_parcel_id r
          end).
Proof.
  induction t as [| r0 t IH]; [done |].
  cbn [app max_key]. rewrite IH.
  destruct (max_key t) as [m |]; f_equal; lia.
Qed.

(** X15.  A record without [parcel_id], stored alone, goes under the key
    after the largest one (1 in an empty table), and [get_last_id] is that
    key afterwards. *)
Theorem record_without_id_takes_the_next_key env t p :
  parcel_id p = PNone →
  forallb bindable (other_fields p) = true →
  fault env 0 = None →
  (∀ M, get_last_id t = Some M → M < max_int64) →
  let next := match get_last_id t with Some M => M + 1 | None => 1 end in
  ∃ r, row_for next (now env 0) p = Return r
       ∧ insert_many env t [p] = (t ++ [r], Return tt)
       ∧ get_last_id (t ++ [r]) = Some next.
Proof.
  intros Hid Hp Hfault Hmax next.
  assert (Hnew : new_rowid t = Return next).
  { unfold new_rowid, next, get_last_id in *.
    destruct (max_key t) as [M |]; [| done].
    specialize (Hmax M eq_refl). by destruct (Z.ltb_spec M max_int64); [| lia]. }
  pose proof (delete_key_fresh _ _ (new_rowid_fresh _ _ Hnew)) as Hfresh.
  unfold insert_many, row_for, other_fields in *.
  cbn [executemany forallb] in *. rewrite !bindable_eq in Hp. rewrite Hfault.
  unfold insert_or_replace. rewrite Hid. cbn [bind_param]. run_result.
  repeat (apply andb_prop in Hp as [? Hp]).
  repeat (match goal with
          | H : match bind_param ?v with _ => _ end = true |- _ =>
              destruct (bind_param v); [clear H | discriminate H]
          end).
  cbn [resolve_rowid]. rewrite Hnew, Hfresh.
  eexists. split; [reflexivity |]. split; [reflexivity |].
  unfold get_last_id. rewrite max_key_snoc. cbn [row_parcel_id].
  subst next. unfold get_last_id. destruct (max_key t); f_equal; lia.
Qed.
End MoreSqlite.

Section MoreScheduler.
Context `{!Engine} {F : Type} `{!FloatArith F}.
Implicit Types (m : machine F) (sess : session) (env : batch_env F).

Lemma counted_all_bounds sess ids :
  ((counted_all sess ids).1 ≤ length ids
   ∧ (counted_all sess ids).2 ≤ length ids
   ∧ length ids ≤ (counted_all sess ids).1 + (counted_all sess ids).2)%nat.
Proof.
  unfold counted_all. induction ids as [| id ids IH];
    cbn [foldr fst snd length]; [lia |].
  pose proof (counted_bounds (sess id)). lia.
Qed.

Lemma gather_eq sess ids m :
  gather (get_parcel_info sess <$> ids) m
  = (bump (counted_all sess ids).1 (counted_all sess ids).2 (Get <$> ids) m,
     Return ((λ id, fetched (sess id)) <$> ids)).
Proof.
  revert m. induction ids as [| id ids IH]; intros m.
  - cbn. by rewrite bump_nothing.
  - cbn [fmap list_fmap gather].
    rewrite (bind_return _ _ _ _ _ (get_parcel_info_eq sess id m)).
    rewrite (bind_return _ _ _ _ _ (IH _)).
    rewrite bump_bump. done.
Qed.

Lemma omap_id_fmap {A B} (f : A → option B) (l : list A) :
  omap id (f <$> l) = omap f l.
Proof.
  induction l as [| x l IH]; [done |]. cbn. rewrite IH. by destruct (f x).
Qed.

(** A batch, as a function of the answers alone. *)
Lemma process_batch_eq sess start m :
  let bs := batch_size (self m) in
  process_batch sess start m
  = (bump (counted_all sess (seqZ start bs)).1
          (counted_all sess (seqZ start bs)).2 (Get <$> seqZ start bs) m,
     Return (batch_records sess bs start)).
Proof.
  cbn zeta. unfold process_batch.
  rewrite (bind_return _ _ m m (batch_size (self m))) by done.
  rewrite batch_ids_seqZ.
  rewrite (bind_return _ _ _ _ _ (gather_eq sess _ m)).
  unfold batch_records. by rewrite omap_id_fmap.
Qed.

Lemma length_omap_le {A B} (f : A → option B) (l : list A) :
  (length (omap f l) ≤ length l)%nat.
Proof.
  induction l as [| x l IH]; [done |]. cbn. destruct (f x); cbn; lia.
Qed.

(** X16.  [process_batch] returns the records of the answered identifiers
    in the order of the identifiers, at most [batch_size] of them; it
    requests the [batch_size] identifiers from [start_id] on, leaves the
    table alone, and makes each counter grow by at most [batch_size] and
    their sum by at least [batch_size].  With [batch_size <= 0] it does
    nothing and returns the empty list. *)
Theorem process_batch_returns_the_answered sess start m :
  let bs := batch_size (self m) in
  let m' := (process_batch sess start m).1 in
  let n := Z.to_nat bs in
  (process_batch sess start m).2 = Return (batch_records sess bs start)
  ∧ (length (batch_records sess bs start) ≤ n)%nat
  ∧ db (self m') = db (self m)
  ∧ gets_of (trace m') = gets_of (trace m) ++ seqZ start bs
  ∧ (successful_requests (self m) ≤ successful_requests (self m')
     ≤ successful_requests (self m) + n)%nat
  ∧ (failed_requests (self m) ≤ failed_requests (self m')
     ≤ failed_requests (self m) + n)%nat
  ∧ (successful_requests (self m) + failed_requests (self m) + n
     ≤ successful_requests (self m') + failed_requests (self m'))%nat
  ∧ (bs ≤ 0 → m' = m ∧ batch_records sess bs start = []).
Proof.
  cbn zeta. rewrite process_batch_eq. cbn [fst snd].
  pose proof (counted_all_bounds sess (seqZ start (batch_size (self m)))) as Hc.
  rewrite length_seqZ in Hc.
  split; [done |]. split.
  { unfold batch_records. etrans; [apply length_omap_le |].
    by rewrite length_seqZ. }
  unfold bump; cbn -[gets_of counted_all].
  split; [done |]. split; [by rewrite gets_of_app, gets_of_Get |].
  split; [lia |]. split; [lia |]. split; [lia |].
  intros Hbs. unfold batch_records. rewrite seqZ_nil by done. cbn.
  destruct m as [[] ? ? ?]; cbn. by rewrite app_nil_r.
Qed.

(** One pass whose head went through, in full. *)
Lemma loop_body_eq start_id end_id env m m0 :
  0 < batch_size (self m) →
  loop_head start_id end_id m = (m0, Return tt) →
  let bs := batch_size (self m) in
  let cur := current_id m in
  let rs := batch_records (sess env) bs cur in
  let c := counted_all (sess env) (seqZ cur bs) in
  ∃ m', loop_body start_id end_id env m = (m', Return tt)
    ∧ batch_size (self m') = bs
    ∧ successful_requests (self m') = (c.1 + successful_requests (self m))%nat
    ∧ failed_requests (self m') = (c.2 + failed_requests (self m))%nat
    ∧ gets_of (trace m') = gets_of (trace m) ++ seqZ cur bs
    ∧ match (match rs with
             | [] => (db (self m), Return tt)
             | _ :: _ => insert_many (stmts env) (db (self m)) rs
             end) with
      | (t', Return _) =>
          db (self m') = t' ∧ current_id m' = cur + bs
          ∧ batch_durations m'
            = slide (batch_durations m)
                    (fsub (batch_end_time env) (batch_start_time env))
      | (_, Raise e) =>
          db (self m') = db (self m) ∧ current_id m' = cur
          ∧ batch_durations m' = batch_durations m
          ∧ trace m' = trace m0 ++ (Get <$> seqZ cur bs)
                       ++ [Print (ErrorInBatch cur e); Sleep 60]
      end.
Proof.
  intros Hbs Hhead bs cur rs c.
  rewrite loop_body_unfold, Hhead.
  pose proof (loop_head_run start_id end_id m) as Hrun.
  rewrite Hhead in Hrun. destruct Hrun as (_ & es & -> & Hes & _).
  destruct (try_block_run env (bump 0 0 es m)) as (a & b & rs0 & Hpb & Htry);
    [done |].
  rewrite process_batch_eq in Hpb.
  destruct m as [[bs' t ok ko] cur' ds' tr].
  unfold bump in Hpb, Htry |- *. cbn -[Nat.ltb gets_of slide counted_all batch_records] in *.
  subst bs cur. fold rs c in Hpb. rewrite batch_ids_seqZ in Htry.
  injection Hpb as Ha Hb Hrs. subst rs0.
  assert (a = c.1) as -> by lia. assert (b = c.2) as -> by lia.
  destruct rs as [| r rs'].
  - destruct Htry as (es' & Hes' & ->). eexists. split; [reflexivity |].
    cbn -[Nat.ltb gets_of slide counted_all batch_records]. repeat split.
    rewrite !gets_of_app, Hes, Hes', gets_of_Get. by rewrite !app_nil_r.
  - destruct (insert_many (stmts env) t (r :: rs')) as [t' [[] | e]].
    + destruct Htry as (es' & Hes' & ->). eexists. split; [reflexivity |].
      cbn -[Nat.ltb gets_of slide counted_all batch_records]. repeat split.
      rewrite !gets_of_app, Hes, Hes', gets_of_Get. by rewrite !app_nil_r.
    + rewrite Htry. eexists. split; [reflexivity |].
      cbn -[Nat.ltb gets_of slide counted_all batch_records]. repeat split.
      * rewrite !gets_of_app, Hes, gets_of_Get. cbn. by rewrite !app_nil_r.
      * by rewrite <- !app_assoc.
Qed.

(** A relation between the machines before and after a pass that is
    reflexive and transitive holds over a run of the loop. *)
Lemma scrape_loop_invariant (P : machine F → machine F → Prop)
    start_id end_id :
  (∀ m, P m m) →
  (∀ m1 m2 m3, P m1 m2 → P m2 m3 → P m1 m3) →
  (∀ env m m', 0 < batch_size (self m) → current_id m < end_id →
     loop_body start_id end_id env m = (m', Return tt) → P m m') →
  ∀ envs m, 0 < batch_size (self m) →
            P m (scrape_loop start_id end_id envs m).1.
Proof.
  intros Hrefl Htrans Hstep envs.
  induction envs as [| env rest IH]; intros m Hbs.
  - cbn [scrape_loop]. rewrite bind_gets. apply Hrefl.
  - destruct (Z.lt_ge_cases (current_id m) end_id) as [Hlt | Hge].
    2:{ rewrite scrape_loop_exit by done. apply Hrefl. }
    rewrite scrape_loop_step by done.
    destruct (loop_head start_id end_id m) as [m0 [[] | e]] eqn:Hhead.
    2:{ rewrite (bind_raise _ _ _ _ _ (loop_body_fatal _ _ _ _ _ _ Hhead)).
        apply Hrefl. }
    destruct (loop_body_eq start_id end_id env m m0 Hbs Hhead)
      as (m' & Hbody & Hbs' & _).
    rewrite (bind_return _ _ _ _ _ Hbody).
    eapply Htrans; [by eapply Hstep | apply IH; lia].
Qed.

Lemma loop_body_inv start_id end_id env m m' :
  0 < batch_size (self m) →
  loop_body start_id end_id env m = (m', Return tt) →
  ∃ m0, loop_head start_id end_id m = (m0, Return tt).
Proof.
  intros Hbs Hbody.
  destruct (loop_head start_id end_id m) as [m0 [[] | e]] eqn:Hhead; [eauto |].
  by rewrite (loop_body_fatal _ _ _ _ _ _ Hhead) in Hbody.
Qed.

(** X17.  A run whose starting identifier is at or past [end_id] prints
    where it would start and returns: no request, no change to the
    store. *)
Theorem nothing_to_fetch_past_the_end start_id end_id envs m :
  end_id ≤ resume_point (get_last_id (db (self m))) start_id →
  let cur := resume_point (get_last_id (db (self m))) start_id in
  scrape_range start_id end_id envs m
  = (Machine (self m) cur [] (trace m ++ [Print (StartingFrom cur)]),
     Return Exited).
Proof.
  intros Hle cur. rewrite scrape_range_unfold. by apply scrape_loop_exit.
Qed.

(** X18.  With [start_id = end_id], a pass that has durations to average
    dies on the progress line: the division by [end_id - start_id] raises
    [ZeroDivisionError] outside the [try] block, so the loop raises it
    without a request, a sleep or a change to the machine. *)
Theorem equal_bounds_are_fatal start_id end_id env rest m secs :
  start_id = end_id →
  current_id m < end_id →
  batch_size (self m) ≠ 0 →
  batch_durations m ≠ [] →
  ftrunc (fmul (fdiv_int (fsum (batch_durations m))
                         (Z.of_nat (length (batch_durations m))))
               (truediv (end_id - current_id m) (batch_size (self m))))
  = Return secs →
  Z.abs (secs `div` 86400) ≤ 999999999 →
  scrape_loop start_id end_id (env :: rest) m = (m, Raise ZeroDivisionError).
Proof.
  intros -> Hlt Hbs Hds Hsecs Hdays.
  rewrite scrape_loop_step by done.
  eapply bind_raise, loop_body_fatal.
  destruct m as [[bs t ok ko] cur ds tr]. cbn in *.
  unfold loop_head, report_progress, py_truediv, timedelta. run_M.
  destruct (Z.eqb_spec bs 0) as [| _]; [done |].
  destruct ds as [| d ds]; [done |].
  rewrite Hsecs.
  destruct (Z.leb_spec (Z.abs (secs `div` 86400)) 999999999); [| lia].
  rewrite Z.sub_diag. cbn. reflexivity.
Qed.

Lemma sleeps_of_app (tr es : list (event F)) :
  sleeps_of (tr ++ es) = sleeps_of tr ++ sleeps_of es.
Proof. apply omap_app. Qed.

Lemma sleeps_of_Get ids : sleeps_of (F := F) (Get <$> ids) = [].
Proof. induction ids as [| id ids IH]; [done |]. exact IH. Qed.

(** A pass whose progress line can be printed gets to its [try] block,
    having printed at most that line. *)
Lemma loop_head_returns start_id end_id m :
  batch_size (self m) ≠ 0 →
  progress_line_prints start_id end_id m →
  ∃ es, loop_head start_id end_id m = (bump 0 0 es m, Return tt)
        ∧ sleeps_of es = [].
Proof.
  intros Hbs Hp.
  assert (Hret : ∃ m0, loop_head start_id end_id m = (m0, Return tt)).
  { destruct m as [[bs t ok ko] cur ds tr]. cbn in *.
    unfold progress_line_prints in Hp. cbn in Hp.
    unfold loop_head, report_progress, py_truediv, timedelta. run_M.
    destruct (Z.eqb_spec bs 0) as [| _]; [done |].
    destruct ds as [| d ds]; [by eexists |].
    destruct Hp as [| (Hne & secs & Hsecs & Hdays)]; [done |].
    rewrite Hsecs.
    destruct (Z.leb_spec (Z.abs (secs `div` 86400)) 999999999); [| lia].
    destruct (Z.eqb_spec (end_id - start_id) 0) as [| _]; [lia |].
    by eexists. }
  destruct Hret as [m0 Hhead].
  pose proof (loop_head_run start_id end_id m) as Hrun.
  rewrite Hhead in Hrun. destruct Hrun as (_ & es & -> & _ & Hes).
  exists es. split; [done |].
  destruct (batch_durations m); [by subst |].
  by destruct Hes as (? & ? & -> & _).
Qed.

(** X19.  While the records of the current batch cannot be stored, and
    the progress line can be printed, every pass requests the same
    identifiers again, sleeps 60 and leaves [current_id], the table and
    the window as they were: the loop is still pending after any number of
    passes. *)
Theorem unstorable_batch_blocks_the_scan start_id end_id envs m :
  0 < batch_size (self m) →
  current_id m < end_id →
  progress_line_prints start_id end_id m →
  Forall (λ env,
            let rs := batch_records (sess env) (batch_size (self m))
                                    (current_id m) in
            rs ≠ [] ∧ raised (insert_many (stmts env) (db (self m)) rs).2)
         envs →
  ∃ m', scrape_loop start_id end_id envs m = (m', Return Pending)
    ∧ current_id m' = current_id m
    ∧ db (self m') = db (self m)
    ∧ batch_durations m' = batch_durations m
    ∧ sleeps_of (trace m')
      = sleeps_of (trace m) ++ replicate (length envs) 60
    ∧ gets_of (trace m')
      = gets_of (trace m)
        ++ mjoin (replicate (length envs)
                            (seqZ (current_id m) (batch_size (self m)))).
Proof.
  intros Hbs Hlt Hds Henvs. revert m Hbs Hlt Hds Henvs.
  induction envs as [| env rest IH]; intros m Hbs Hlt Hds Henvs.
  - exists m. cbn [scrape_loop]. rewrite bind_gets.
    destruct (Z.ltb_spec (current_id m) end_id); [| lia].
    cbn. by rewrite !app_nil_r.
  - apply Forall_cons in Henvs as [[Hrs Hraise] Henvs].
    rewrite scrape_loop_step by done.
    destruct (loop_head_returns start_id end_id m ltac:(lia) Hds)
      as (es & Hhead & Hes).
    destruct (loop_body_eq start_id end_id env m _ Hbs Hhead)
      as (m1 & Hbody & Hbs1 & _ & _ & Hgets & Hcase).
    cbn zeta in Hcase.
    destruct (batch_records (sess env) (batch_size (self m)) (current_id m))
      as [| r rs]; [done |].
    destruct (insert_many (stmts env) (db (self m)) (r :: rs))
      as [t' [[] | e]]; [done |].
    destruct Hcase as (Hdb & Hcur & Hds1 & Htrace).
    rewrite (bind_return _ _ _ _ _ Hbody).
    destruct (IH m1) as (m' & Hloop & Hcur' & Hdb' & Hds' & Hsl & Hg).
    + lia.
    + lia.
    + unfold progress_line_prints in *. by rewrite Hds1, Hcur, Hbs1.
    + rewrite Hbs1, Hcur, Hdb. exact Henvs.
    + exists m'. split; [exact Hloop |].
      split; [congruence |]. split; [congruence |]. split; [congruence |].
      split.
      * rewrite Hsl, Htrace. unfold bump; cbn [trace].
        rewrite !sleeps_of_app, sleeps_of_Get, Hes. cbn.
        by rewrite !app_nil_r, <- app_assoc.
      * rewrite Hg, Hgets, Hbs1, Hcur. cbn. by rewrite <- app_assoc.
Qed.

(** X20.  Over a run of the loop, [current_id] has grown by [batch_size]
    times the number of completed passes, the batch size has not changed,
    and [current_id] stays below [end_id + batch_size]. *)
Theorem current_id_counts_completed_passes start_id end_id envs m :
  0 < batch_size (self m) →
  let m' := (scrape_loop start_id end_id envs m).1 in
  current_id m'
  = current_id m
    + batch_size (self m)
      * Z.of_nat (length (completed_durations start_id end_id envs m))
  ∧ batch_size (self m') = batch_size (self m)
  ∧ (current_id m < end_id + batch_size (self m) →
     current_id m' < end_id + batch_size (self m)).
Proof.
  intros Hbs. cbn zeta. split; [| split].
  - revert m Hbs. induction envs as [| env rest IH]; intros m Hbs.
    + cbn [scrape_loop completed_durations]. rewrite bind_gets. cbn. lia.
    + cbn [completed_durations].
      destruct (Z.ltb_spec (current_id m) end_id) as [Hlt | Hge].
      2:{ rewrite scrape_loop_exit by done. cbn. lia. }
      rewrite scrape_loop_step by done.
      destruct (loop_head start_id end_id m) as [m0 [[] | e]] eqn:Hhead.
      2:{ rewrite (bind_raise _ _ _ _ _ (loop_body_fatal _ _ _ _ _ _ Hhead)).
          cbn. lia. }
      pose proof (loop_body_pass start_id end_id env m m0 Hbs Hhead) as Hpass.
      cbn zeta in Hpass.
      destruct (try_block env m0) as [m1 [[] | e]].
      * destruct Hpass as (Hbody & _ & Hbs1 & _).
        rewrite (bind_return _ _ _ _ _ Hbody), Hbody. cbn [fst].
        rewrite IH by (cbn; lia). cbn [current_id self]. rewrite Hbs1.
        rewrite length_app. cbn [length]. lia.
      * destruct Hpass as (Hbody & Hbs1 & _).
        rewrite (bind_return _ _ _ _ _ Hbody), Hbody. cbn [fst app].
        rewrite IH by (cbn; lia). cbn [current_id self]. by rewrite Hbs1.
  - apply (scrape_loop_invariant
             (λ m1 m2, batch_size (self m2) = batch_size (self m1))
             start_id end_id); [done | congruence | | done].
    intros env m1 m2 Hbs1 _ Hbody.
    destruct (loop_body_inv _ _ _ _ _ Hbs1 Hbody) as [m0 Hhead].
    destruct (loop_body_eq start_id end_id env m1 m0 Hbs1 Hhead)
      as (m2' & Hbody' & Hbs' & _).
    rewrite Hbody in Hbody'. by injection Hbody' as <-.
  - apply (scrape_loop_invariant
             (λ m1 m2, batch_size (self m2) = batch_size (self m1)
                       ∧ (current_id m1 < end_id + batch_size (self m1) →
                          current_id m2 < end_id + batch_size (self m1)))
             start_id end_id); [done | | | done].
    + intros m1 m2 m3 [Hb1 H1] [Hb2 H2]. split; [congruence |].
      intros Hlt. rewrite Hb1 in H2. auto.
    + intros env m1 m2 Hbs1 Hlt Hbody.
      destruct (loop_body_inv _ _ _ _ _ Hbs1 Hbody) as [m0 Hhead].
      destruct (loop_body_eq start_id end_id env m1 m0 Hbs1 Hhead)
        as (m2' & Hbody' & Hbs' & _ & _ & _ & Hcase).
      rewrite Hbody in Hbody'. injection Hbody' as <-.
      split; [done |]. intros _. cbn zeta in Hcase.
      destruct (match batch_records _ _ _ with [] => _ | _ => _ end)
        as [t' [[] | e]]; destruct Hcase as (_ & -> & _); lia.
Qed.

Lemma scrape_range_keeps_keys start_id end_id envs m :
  0 < batch_size (self m) →
  let m' := (scrape_range start_id end_id envs m).1 in
  keys (db (self m)) ⊆ keys (db (self m'))
  ∧ (NoDup (keys (db (self m))) → NoDup (keys (db (self m'))))
  ∧ (∀ M, get_last_id (db (self m)) = Some M →
          ∃ M', get_last_id (db (self m')) = Some M' ∧ M ≤ M').
Proof.
  intros Hbs. cbn zeta. rewrite scrape_range_unfold.
  set (P := λ m1 m2 : machine F,
              keys (db (self m1)) ⊆ keys (db (self m2))
              ∧ (NoDup (keys (db (self m1))) → NoDup (keys (db (self m2))))).
  assert (HP : ∀ m0, 0 < batch_size (self m0) →
                     P m0 (scrape_loop start_id end_id envs m0).1).
  { apply (scrape_loop_invariant P start_id end_id).
    - intros m0. by split.
    - intros m1 m2 m3 [H1 N1] [H2 N2]. split; [by etrans | auto].
    - intros env m1 m2 Hbs1 _ Hbody.
      destruct (loop_body_inv _ _ _ _ _ Hbs1 Hbody) as [m0 Hhead].
      destruct (loop_body_eq start_id end_id env m1 m0 Hbs1 Hhead)
        as (m2' & Hbody' & _ & _ & _ & _ & Hcase).
      rewrite Hbody in Hbody'. injection Hbody' as <-.
      cbn zeta in Hcase. unfold P.
      destruct (batch_records (sess env) (batch_size (self m1)) (current_id m1))
        as [| r rs].
      + destruct Hcase as (-> & _). by split.
      + pose proof (insert_many_keys_subseteq (stmts env) (db (self m1)) (r :: rs)) as Hsub.
        pose proof (insert_many_NoDup (stmts env) (db (self m1)) (r :: rs)) as Hnd.
        destruct (insert_many (stmts env) (db (self m1)) (r :: rs))
          as [t' [[] | e]]; destruct Hcase as (-> & _); by split. }
  match goal with |- context [scrape_loop _ _ envs ?m0] =>
    destruct (HP m0 Hbs) as [Hsub Hnd] end.
  cbn [self db] in Hsub, Hnd. split; [done |]. split; [done |].
  intros M. by apply max_key_mono.
Qed.

(** X21.  A run of [scrape_range] removes no parcel from the store: the
    keys stored before are stored after, they stay distinct, and
    [get_last_id] does not go down. *)
Theorem run_never_deletes start_id end_id envs m :
  0 < batch_size (self m) →
  let m' := (scrape_range start_id end_id envs m).1 in
  keys (db (self m)) ⊆ keys (db (self m'))
  ∧ (NoDup (keys (db (self m))) → NoDup (keys (db (self m'))))
  ∧ (∀ M, get_last_id (db (self m)) = Some M →
          ∃ M', get_last_id (db (self m')) = Some M' ∧ M ≤ M').
Proof. apply scrape_range_keeps_keys. Qed.

(** X22.  Over a run of the loop with [n] requests made, each of the two
    counters has grown by at most [n] and their sum by at least [n]. *)
Theorem counters_follow_the_requests start_id end_id envs m :
  0 < batch_size (self m) →
  let m' := (scrape_loop start_id end_id envs m).1 in
  ∃ n, length (gets_of (trace m')) = (length (gets_of (trace m)) + n)%nat
    ∧ (successful_requests (self m) ≤ successful_requests (self m')
       ≤ successful_requests (self m) + n)%nat
    ∧ (failed_requests (self m) ≤ failed_requests (self m')
       ≤ failed_requests (self m) + n)%nat
    ∧ (successful_requests (self m) + failed_requests (self m) + n
       ≤ successful_requests (self m') + failed_requests (self m'))%nat.
Proof.
  intros Hbs. cbn zeta.
  apply (scrape_loop_invariant
    (λ m1 m2, ∃ n,
       length (gets_of (trace m2)) = (length (gets_of (trace m1)) + n)%nat
       ∧ (successful_requests (self m1) ≤ successful_requests (self m2)
          ≤ successful_requests (self m1) + n)%nat
       ∧ (failed_requests (self m1) ≤ failed_requests (self m2)
          ≤ failed_requests (self m1) + n)%nat
       ∧ (successful_requests (self m1) + failed_requests (self m1) + n
          ≤ successful_requests (self m2) + failed_requests (self m2))%nat)
    start_id end_id); [| | | done].
  - intros m0. exists 0%nat. lia.
  - intros m1 m2 m3 (n1 & ? & ? & ? & ?) (n2 & ? & ? & ? & ?).
    exists (n1 + n2)%nat. lia.
  - intros env m1 m2 Hbs1 _ Hbody.
    destruct (loop_body_inv _ _ _ _ _ Hbs1 Hbody) as [m0 Hhead].
    destruct (loop_body_eq start_id end_id env m1 m0 Hbs1 Hhead)
      as (m2' & Hbody' & _ & Hok & Hko & Hgets & _).
    rewrite Hbody in Hbody'. injection Hbody' as <-.
    pose proof (counted_all_bounds (sess env)
                  (seqZ (current_id m1) (batch_size (self m1)))) as Hc.
    exists (length (seqZ (current_id m1) (batch_size (self m1)))).
    rewrite Hgets, length_app, Hok, Hko. lia.
Qed.
Lemma batch_records_nothing sess bs start :
  (∀ id, fetched (sess id) = None) → batch_records sess bs start = [].
Proof.
  intros Hno. unfold batch_records.
  induction (seqZ start bs) as [| id l IH]; [done |]. cbn. by rewrite Hno.
Qed.

(** The first pass of a run in which no parcel is found. *)
Lemma first_pass_finds_nothing start_id end_id env rest m :
  0 < batch_size (self m) →
  resume_point (get_last_id (db (self m))) start_id < end_id →
  (∀ id, fetched (sess env id) = None) →
  ∃ m1, scrape_range start_id end_id (env :: rest) m
        = scrape_loop start_id end_id rest m1
    ∧ current_id m1
      = resume_point (get_last_id (db (self m))) start_id
        + batch_size (self m)
    ∧ batch_size (self m1) = batch_size (self m)
    ∧ db (self m1) = db (self m)
    ∧ batch_durations m1
      = [fsub (batch_end_time env) (batch_start_time env)]
    ∧ gets_of (trace m1)
      = gets_of (trace m)
        ++ seqZ (resume_point (get_last_id (db (self m))) start_id)
                (batch_size (self m)).
Proof.
  intros Hbs Hlt Hno. rewrite scrape_range_unfold.
  set (m0 := Machine _ _ _ _).
  rewrite (scrape_loop_step start_id end_id env rest m0) by done.
  assert (Hhead : loop_head start_id end_id m0 = (m0, Return tt)).
  { apply loop_head_first; [cbn; lia | done]. }
  destruct (loop_body_eq start_id end_id env m0 m0 Hbs Hhead)
    as (m1 & Hbody & Hbs1 & _ & _ & Hgets & Hcase).
  cbn zeta in Hcase. rewrite batch_records_nothing in Hcase by done.
  destruct Hcase as (Hdb & Hcur & Hds).
  exists m1. rewrite (bind_return _ _ _ _ _ Hbody).
  split; [done |]. split; [done |]. split; [done |]. split; [done |].
  split; [done |]. rewrite Hgets. subst m0. cbn [trace current_id self].
  rewrite gets_of_app. cbn. by rewrite app_nil_r.
Qed.

(** An estimate of more days than [timedelta] takes ends the loop with
    [OverflowError], before the pass requests anything. *)
Lemma estimate_overflow_is_fatal start_id end_id env rest m secs :
  current_id m < end_id →
  batch_size (self m) ≠ 0 →
  batch_durations m ≠ [] →
  ftrunc (fmul (fdiv_int (fsum (batch_durations m))
                         (Z.of_nat (length (batch_durations m))))
               (truediv (end_id - current_id m) (batch_size (self m))))
  = Return secs →
  999999999 < Z.abs (secs `div` 86400) →
  scrape_loop start_id end_id (env :: rest) m = (m, Raise OverflowError).
Proof.
  intros Hlt Hbs Hds Hsecs Hdays.
  rewrite scrape_loop_step by done.
  eapply bind_raise, loop_body_fatal.
  destruct m as [[bs t ok ko] cur ds tr]. cbn in *.
  unfold loop_head, report_progress, py_truediv, timedelta. run_M.
  destruct (Z.eqb_spec bs 0) as [| _]; [done |].
  destruct ds as [| d ds]; [done |].
  rewrite Hsecs.
  destruct (Z.leb_spec (Z.abs (secs `div` 86400)) 999999999); [lia |].
  reflexivity.
Qed.

End MoreScheduler.

Import Limiter.

Section MoreLimiter.
Context {F : Type}.
Implicit Types (p : pool F) (ts : list pc) (sess : session).

Lemma tasks_cases ts :
  (∃ i id, ts !! i = Some (Holding id))
  ∨ (outstanding ts = 0%nat ∧ ∃ i id, ts !! i = Some (Waiting id))
  ∨ (outstanding ts = 0%nat ∧ Forall (λ t, is_finished t = true) ts).
Proof.
  induction ts as [| t ts IH].
  - right. right. by split.
  - destruct t as [id | id | r].
    + destruct IH as [(i & id' & Hi) | [[Ho _] | [Ho _]]].
      * left. by exists (S i), id'.
      * right. left. split; [exact Ho |]. by exists 0%nat, id.
      * right. left. split; [exact Ho |]. by exists 0%nat, id.
    + left. by exists 0%nat, id.
    + destruct IH as [(i & id' & Hi) | [[Ho (i & id' & Hi)] | [Ho Hall]]].
      * left. by exists (S i), id'.
      * right. left. split; [exact Ho |]. by exists (S i), id'.
      * right. right. split; [exact Ho |]. by constructor.
Qed.

(** X23.  In every state that the tasks of a batch can reach, either some
    task can take a step, or all tasks are finished and the semaphore is
    back at 1000. *)
Theorem semaphore_never_blocks_a_batch sess ids (m : machine F) p :
  reachable sess ids m p →
  (Forall (λ t, is_finished t = true) (tasks p) ∧ value p = ceiling)
  ∨ ∃ p', step sess p p'.
Proof.
  intros [Hv _]%reachable_accounting. destruct p as [v ts ms].
  cbn [value tasks] in *.
  destruct (tasks_cases ts) as [(i & id & Hi) | [[Ho (i & id & Hi)] | [Ho Hall]]].
  - right. destruct (get_parcel_info sess id ms) as [m' r] eqn:Hfetch.
    eexists. by eapply step_release.
  - right. rewrite Ho in Hv. unfold ceiling in Hv.
    destruct v as [| v]; [lia |]. eexists. by eapply step_acquire.
  - left. split; [done | lia].
Qed.

Lemma tally_acquire sess ids ts i id :
  ts !! i = Some (Waiting id) →
  tally sess ids (<[i := Holding id]> ts) = tally sess ids ts.
Proof.
  revert ids i. induction ts as [| t ts IH]; intros ids i Hi; [done |].
  destruct ids as [| id0 ids]; [by destruct i |].
  destruct i as [| i].
  - cbn in Hi |- *. by injection Hi as ->.
  - change (tally sess (id0 :: ids) (t :: <[i := Holding id]> ts)
            = tally sess (id0 :: ids) (t :: ts)).
    cbn [tally]. by rewrite (IH ids i Hi).
Qed.

Lemma tally_release sess ids ts i id r :
  Forall2 (task_of sess) ids ts →
  ts !! i = Some (Holding id) →
  tally sess ids (<[i := Finished r]> ts)
  = (((tally sess ids ts).1 + (counted (sess id)).1)%nat,
     ((tally sess ids ts).2 + (counted (sess id)).2)%nat).
Proof.
  intros Hall. revert i. induction Hall as [| id0 t ids ts Ht Hall IH];
    intros i Hi; [done |].
  destruct i as [| i].
  - cbn -[counted] in Hi |- *.
    injection Hi as ->. destruct Ht as [Ht | [Ht | Ht]]; [done | | done].
    injection Ht as ->. cbn [is_finished]. f_equal; lia.
  - change (tally sess (id0 :: ids) (t :: <[i := Finished r]> ts)
            = (((tally sess (id0 :: ids) (t :: ts)).1
                + (counted (sess id)).1)%nat,
               ((tally sess (id0 :: ids) (t :: ts)).2
                + (counted (sess id)).2)%nat)).
    cbn [tally]. rewrite (IH _ Hi).
    destruct (is_finished t); cbn [fst snd]; f_equal; lia.
Qed.

Lemma task_of_lookup sess ids ts i id :
  Forall2 (task_of sess) ids ts →
  (ts !! i = Some (Waiting id) ∨ ts !! i = Some (Holding id)) →
  ids !! i = Some id.
Proof.
  intros Hall Hi.
  assert (∃ t, ts !! i = Some t ∧ (t = Waiting id ∨ t = Holding id))
    as (t & Ht & Hcase) by (destruct Hi; eauto).
  destruct (Forall2_lookup_r _ _ _ _ _ Hall Ht) as (id' & Hid & Htask).
  rewrite Hid. f_equal.
  destruct Hcase as [-> | ->], Htask as [? | [? | ?]]; congruence.
Qed.

(** What every interleaving keeps: each task is the one of its
    identifier, and the shared machine has seen the finished fetches and
    nothing else. *)
Lemma reachable_tally sess ids (m : machine F) p :
  reachable sess ids m p →
  Forall2 (task_of sess) ids (tasks p)
  ∧ ∃ es, shared p
          = bump (tally sess ids (tasks p)).1 (tally sess ids (tasks p)).2
                 es m.
Proof.
  unfold reachable. revert p. apply rtc_ind_r; [| intros p p' _ Hstep IH].
  - unfold spawn. cbn [tasks shared]. split.
    + induction ids as [| id ids IHi]; constructor; [by left | done].
    + exists []. assert (tally sess ids (Waiting <$> ids) = (0, 0)%nat) as ->.
      { induction ids as [| id ids IHi]; [done |]. exact IHi. }
      cbn. by rewrite bump_nothing.
  - destruct IH as [Hall (es & Hes)].
    destruct Hstep as [i id v ts ms Hi | i id v ts ms ms' r Hi Hfetch];
      cbn [tasks shared] in *.
    + pose proof (task_of_lookup _ _ _ _ _ Hall (or_introl Hi)) as Hid.
      split.
      * rewrite <- (list_insert_id ids i id Hid).
        apply Forall2_insert; [done | by right; left].
      * exists es. by rewrite tally_acquire.
    + pose proof (task_of_lookup _ _ _ _ _ Hall (or_intror Hi)) as Hid.
      rewrite get_parcel_info_eq in Hfetch. injection Hfetch as <- <-.
      split.
      * rewrite <- (list_insert_id ids i id Hid).
        apply Forall2_insert; [done | by right; right].
      * exists (es ++ [Get id]).
        rewrite (tally_release _ _ _ _ _ _ Hall Hi). cbn [fst snd].
        by rewrite Hes, bump_bump.
Qed.

Lemma tally_finished sess ids ts :
  Forall2 (task_of sess) ids ts →
  Forall (λ t, is_finished t = true) ts →
  tally sess ids ts = counted_all sess ids
  ∧ ts = (λ r, Finished (Return r)) <$> ((λ id, fetched (sess id)) <$> ids).
Proof.
  intros Hall. induction Hall as [| id t ids ts Ht Hall IH]; [done |].
  intros [Hfin Hrest]%Forall_cons. destruct (IH Hrest) as [Htally Hts].
  cbn -[counted counted_all]. rewrite Hfin, Htally. split; [done |].
  rewrite <- Hts. f_equal.
  by destruct Ht as [-> | [-> | ->]].
Qed.

(** X24.  Once all tasks of a batch are finished, whatever the
    interleaving was, their results are those that the tasks give when run
    one after the other, in the order of the tasks, and so are the two
    counters. *)
Theorem batch_outcome_is_that_of_the_sequence sess ids (m : machine F) p :
  reachable sess ids m p →
  Forall (λ t, is_finished t = true) (tasks p) →
  ∃ rs, (gather (get_parcel_info sess <$> ids) m).2 = Return rs
        ∧ tasks p = (λ r, Finished (Return r)) <$> rs
        ∧ self (shared p) = self (gather (get_parcel_info sess <$> ids) m).1
        ∧ current_id (shared p) = current_id m
        ∧ batch_durations (shared p) = batch_durations m.
Proof.
  intros Hr Hfin. destruct (reachable_tally sess ids m p Hr) as [Hall (es & Hes)].
  destruct (tally_finished sess ids (tasks p) Hall Hfin) as [Htally Hts].
  rewrite gather_eq. eexists. split; [reflexivity |]. split; [exact Hts |].
  rewrite Hes, Htally. done.
Qed.
End MoreLimiter.

Section MoreMain.
Context `{!Engine} {F : Type} `{!FloatArith F}.

Lemma main_exited existing (envs : list (batch_env F)) m :
  scrape_range Main.start_id Main.end_id envs (boot (init existing))
  = (m, Return Exited) →
  Main.main existing envs
  = Some ((Main.Ran <$> trace m) ++ [Main.Close], db (self m)).
Proof. intros Hrun. unfold Main.main. by rewrite Hrun. Qed.

Lemma main_raised existing (envs : list (batch_env F)) m e :
  scrape_range Main.start_id Main.end_id envs (boot (init existing))
  = (m, Raise e) →
  Main.main existing envs
  = Some ((Main.Ran <$> trace m) ++ [Main.PrintFatal e; Main.Close],
          db (self m)).
Proof. intros Hrun. unfold Main.main. by rewrite Hrun. Qed.

(** X25.  When [main] ends, what it did is what [scrape_range] did, then
    the fatal line exactly when [scrape_range] raised, with the exception
    that it raised, then closing the database, which comes last.  Every
    identifier it requested lies from the starting identifier up to
    40160504; the table left is that of [scrape_range], and the keys found
    in the store are still there. *)
Theorem main_closes_and_stays_in_range existing
    (envs : list (batch_env F)) acts t :
  Main.main existing envs = Some (acts, t) →
  let first := resume_point (get_last_id (create_tables existing))
                            Main.start_id in
  let run := scrape_range Main.start_id Main.end_id envs
                          (boot (init existing)) in
  (run.2 = Return Exited
   ∧ acts = (Main.Ran <$> trace run.1) ++ [Main.Close]
   ∨ ∃ e, run.2 = Raise e
          ∧ acts = (Main.Ran <$> trace run.1)
                   ++ [Main.PrintFatal e; Main.Close])
  ∧ (∀ e, Main.PrintFatal e ∈ acts ↔ run.2 = Raise e)
  ∧ last acts = Some Main.Close
  ∧ Forall (λ id, first ≤ id < 40160505) (gets_of (trace run.1))
  ∧ t = db (self run.1)
  ∧ keys (create_tables existing) ⊆ keys t.
Proof.
  unfold Main.main. intros Hmain.
  destruct (scrape_range_gets (init existing) Main.start_id Main.end_id envs)
    as [Hgets _]; [done |].
  destruct (scrape_range_keeps_keys Main.start_id Main.end_id envs
              (boot (init existing))) as [Hkeys _]; [done |].
  cbn zeta in Hgets, Hkeys |- *.
  assert (Hran : ∀ e (tr : list (event F)), Main.PrintFatal e ∉ Main.Ran <$> tr).
  { intros e tr (x & Hx & _)%list_elem_of_fmap. discriminate Hx. }
  destruct (scrape_range Main.start_id Main.end_id envs (boot (init existing)))
    as [m [[|] | e]]; [| done |]; injection Hmain as <- <-; cbn [fst snd].
  - split; [by left |]. split.
    { intros e. split; [| done].
      intros [Hin | Hin%list_elem_of_singleton]%elem_of_app; [| done].
      by apply Hran in Hin. }
    split; [by rewrite last_snoc |]. split; [| done].
    eapply Forall_impl; [exact Hgets |]. intros id Hid.
    cbn [init batch_size db] in Hid. unfold Main.end_id in Hid. cbn beta. lia.
  - split; [right; by exists e |]. split.
    { intros e'. split.
      - intros [Hin | Hin]%elem_of_app; [by apply Hran in Hin |].
        apply elem_of_cons in Hin as [[= ->] | Hin%list_elem_of_singleton];
          done.
      - intros [= ->]. apply elem_of_app. right. left. }
    split.
    { change [Main.PrintFatal e; Main.Close]
        with ([Main.PrintFatal (F := F) e] ++ [Main.Close]).
      by rewrite app_assoc, last_snoc. }
    split; [| done].
    eapply Forall_impl; [exact Hgets |]. intros id Hid.
    cbn [init batch_size db] in Hid. unfold Main.end_id in Hid. cbn beta. lia.
Qed.
End MoreMain.

(* ===================================================================== *)
(** * The further properties on concrete runs *)
(* ===================================================================== *)

Import Examples MoreExamples.

(** A body with an address and no sheets: the address comes through. *)
Lemma scalar_fields_from_body_witness :
  ∃ content,
    (λ _ : Z, Response 200 (JsonValue (PDict addressed))) 3
    = Response 200 (JsonValue content)
    ∧ py_get content "cadMunicipalityName" = Return PNone
    ∧ py_get content "parcelNumber" = Return PNone
    ∧ py_get content "address" = Return (PStr "Ilica 1")
    ∧ py_get content "area" = Return PNone.
Proof.
  exact (scalar_fields_from_body
           (λ _, Response 200 (JsonValue (PDict addressed))) 3
           (boot (F := Z) (Self 2 [] 0 0))
           (ParcelData (PInt 7) PNone PNone (PStr "Ilica 1") PNone PNone
                       PNone PNone)
           eq_refl).
Defined.

Lemma no_sheets_no_owner_witness :
  ∃ d, (get_parcel_info (λ _, Response 200 (JsonValue (PDict addressed))) 3
          (boot (F := Z) (Self 2 [] 0 0))).2 = Return (Some d)
       ∧ owner_matches None d
       ∧ parcel_id d = PInt 7.
Proof.
  apply (no_sheets_no_owner
           (λ _, Response 200 (JsonValue (PDict addressed))) 3
           (boot (F := Z) (Self 2 [] 0 0)) addressed).
  - reflexivity.
  - apply insert_non_empty.
  - reflexivity.
Defined.

Lemma sheets_not_a_list_lose_the_record_witness :
  let sess : session := λ _, Response 200 (JsonValue (PDict sheets_as_text)) in
  let m := boot (F := Z) (Self 2 [] 0 0) in
  (get_parcel_info sess 3 m).2 = Return None
  ∧ successful_requests (self (get_parcel_info sess 3 m).1) = 1%nat
  ∧ failed_requests (self (get_parcel_info sess 3 m).1) = 1%nat.
Proof.
  intros sess m.
  apply (sheets_not_a_list_lose_the_record sess 3 m sheets_as_text
           (PStr "none")); reflexivity.
Defined.

Lemma body_not_an_object_counts_twice_witness :
  let sess : session := λ _, Response 200 (JsonValue (PList [PInt 1])) in
  let m := boot (F := Z) (Self 2 [] 0 0) in
  (get_parcel_info sess 3 m).2 = Return None
  ∧ successful_requests (self (get_parcel_info sess 3 m).1) = 1%nat
  ∧ failed_requests (self (get_parcel_info sess 3 m).1) = 1%nat.
Proof.
  intros sess m.
  apply (body_not_an_object_counts_twice sess 3 m (PList [PInt 1]));
    reflexivity.
Defined.

(** A [null] after the sheet of the owner changes nothing. *)
Lemma later_sheets_are_ignored_witness :
  let m := boot (F := Z) (Self 2 [] 0 0) in
  (get_parcel_info
     (λ _, Response 200 (JsonValue (with_sheets ∅
             (PList ([sheet []] ++ sheet [possessor "A"] :: [PNone])))))
     3 m).2
  = (get_parcel_info
       (λ _, Response 200 (JsonValue (with_sheets ∅
               (PList ([sheet []] ++ [sheet [possessor "A"]])))))
       3 m).2.
Proof.
  intros m.
  apply (later_sheets_are_ignored 3 m ∅ [sheet []] (sheet [possessor "A"])
           [PNone]).
  vm_compute. discriminate.
Defined.

(** A [null] before the sheet of the owner loses the record. *)
Lemma malformed_sheet_loses_the_record_witness :
  let m := boot (F := Z) (Self 2 [] 0 0) in
  let sess : session :=
    λ _, Response 200 (JsonValue (with_sheets ∅
           (PList ([sheet []] ++ PNone :: [sheet [possessor "A"]])))) in
  (get_parcel_info sess 3 m).2 = Return None
  ∧ failed_requests (self (get_parcel_info sess 3 m).1) = 1%nat.
Proof.
  intros m.
  apply (malformed_sheet_loses_the_record 3 m ∅ [sheet []] PNone
           [sheet [possessor "A"]]); reflexivity.
Defined.

Lemma get_last_id_after_insert_many_witness :
  let t' := (insert_many quiet five [plain 9; plain 3]).1 in
  3 ∈ keys t' ∧ ∃ M, get_last_id t' = Some M ∧ 3 ≤ M.
Proof.
  intros t'.
  apply (get_last_id_after_insert_many quiet five [plain 9; plain 3] t'
           (plain 3) 3).
  - reflexivity.
  - right. left.
  - reflexivity.
Defined.

Lemma insert_many_keeps_other_parcels_witness :
  rows_at 5 (insert_many quiet five [plain 9]).1 = rows_at 5 five.
Proof.
  apply (insert_many_keeps_other_parcels quiet five [plain 9]).
  - reflexivity.
  - vm_compute. discriminate.
  - repeat constructor. vm_compute. discriminate.
Defined.

(** Three records of which the first and the last ask for key 2. *)
Lemma storable_batch_is_stored_witness :
  let rs := [at_address 2 "old"; plain 1; at_address 2 "new"] in
  ∃ t', insert_many quiet five rs = (t', Return tt)
    ∧ ∀ i p, rs !! i = Some p →
        ∃ k r, integer_key p = Some k
               ∧ row_for k (now quiet i) p = Return r
               ∧ k ∈ keys t'
               ∧ (r ∈ t'
                  ∨ ∃ j q, (i < j)%nat ∧ rs !! j = Some q
                           ∧ integer_key q = Some k).
Proof.
  intros rs. apply (storable_batch_is_stored quiet five rs).
  - reflexivity.
  - intros i. reflexivity.
Defined.

Lemma unbindable_field_fails_the_batch_witness :
  raised (insert_many quiet five [plain 1; listed]).2
  ∧ (insert_many quiet five [plain 1; listed]).1 = five.
Proof.
  apply (unbindable_field_fails_the_batch quiet five [plain 1; listed] listed).
  - right. left.
  - reflexivity.
Defined.

(** Into a table whose largest key is 5, a record without [parcel_id] goes
    under 6. *)
Lemma record_without_id_takes_the_next_key_witness :
  ∃ r, row_for 6 0 nameless = Return r
       ∧ insert_many quiet five [nameless] = (five ++ [r], Return tt)
       ∧ get_last_id (five ++ [r]) = Some 6.
Proof.
  apply (record_without_id_takes_the_next_key quiet five nameless).
  - reflexivity.
  - reflexivity.
  - reflexivity.
  - intros M [= <-]. reflexivity.
Defined.

Lemma nothing_to_fetch_past_the_end_witness :
  scrape_range 1 6 [calm] (boot (Self 2 five 0 0))
  = (Machine (Self 2 five 0 0) 6 [] [Print (StartingFrom 6)], Return Exited).
Proof.
  apply (nothing_to_fetch_past_the_end 1 6 [calm] (boot (Self 2 five 0 0))).
  vm_compute. discriminate.
Defined.

Lemma equal_bounds_are_fatal_witness :
  let m := Machine (F := Z) (Self 3 [] 0 0) 8 [7; 7] [] in
  scrape_loop 20 20 [calm] m = (m, Raise ZeroDivisionError).
Proof.
  intros m.
  apply (equal_bounds_are_fatal 20 20 calm [] m 28).
  - reflexivity.
  - reflexivity.
  - discriminate.
  - discriminate.
  - reflexivity.
  - vm_compute. discriminate.
Defined.

(** In the middle of a run: one pass has been completed, in 7 seconds,
    and the next batch cannot be stored. *)
Lemma unstorable_batch_blocks_the_scan_witness :
  let m := Machine (F := Z) (Self 2 five 2 0) 7 [7] [] in
  ∃ m', scrape_loop 5 11 [stormy; stormy] m = (m', Return Pending)
    ∧ current_id m' = 7
    ∧ db (self m') = five
    ∧ batch_durations m' = [7]
    ∧ sleeps_of (trace m') = [60; 60]
    ∧ gets_of (trace m') = [7; 8; 7; 8].
Proof.
  intros m.
  destruct (unstorable_batch_blocks_the_scan 5 11 [stormy; stormy] m)
    as (m' & Hloop & Hcur & Hdb & Hds & Hsl & Hg).
  - reflexivity.
  - reflexivity.
  - right. split; [discriminate |]. exists 14. split; [reflexivity |].
    vm_compute. discriminate.
  - apply Forall_cons; split; [vm_compute; split; [discriminate | exact I] |].
    apply Forall_cons; split; [vm_compute; split; [discriminate | exact I] |].
    constructor.
  - exists m'. split; [exact Hloop |]. split; [exact Hcur |].
    split; [exact Hdb |]. split; [exact Hds |]. split; [exact Hsl |].
    exact Hg.
Defined.

Lemma current_id_counts_completed_passes_witness :
  let m := Machine (F := Z) (Self 2 [] 0 0) 5 [] [] in
  let m' := (scrape_loop 5 9 [calm; stormy; calm] m).1 in
  current_id m'
  = 5 + 2 * Z.of_nat (length (completed_durations 5 9 [calm; stormy; calm] m))
  ∧ batch_size (self m') = 2
  ∧ (5 < 9 + 2 → current_id m' < 9 + 2).
Proof.
  intros m.
  apply (current_id_counts_completed_passes 5 9 [calm; stormy; calm] m).
  reflexivity.
Defined.

Lemma run_never_deletes_witness :
  let m := boot (F := Z) (Self 2 five 0 0) in
  let m' := (scrape_range 1 9 [calm] m).1 in
  keys five ⊆ keys (db (self m'))
  ∧ (NoDup (keys five) → NoDup (keys (db (self m'))))
  ∧ (∀ M, get_last_id five = Some M →
          ∃ M', get_last_id (db (self m')) = Some M' ∧ M ≤ M').
Proof.
  intros m. apply (run_never_deletes 1 9 [calm] m). reflexivity.
Defined.

Lemma counters_follow_the_requests_witness :
  let m := Machine (F := Z) (Self 2 [] 0 0) 5 [] [] in
  let m' := (scrape_loop 5 9 [calm; stormy] m).1 in
  ∃ n, length (gets_of (trace m')) = (0 + n)%nat
    ∧ (0 ≤ successful_requests (self m') ≤ 0 + n)%nat
    ∧ (0 ≤ failed_requests (self m') ≤ 0 + n)%nat
    ∧ (0 + 0 + n
       ≤ successful_requests (self m') + failed_requests (self m'))%nat.
Proof.
  intros m. apply (counters_follow_the_requests 5 9 [calm; stormy] m).
  reflexivity.
Defined.

Lemma semaphore_never_blocks_a_batch_witness :
  let m := boot (F := Z) (Self 2 [] 0 0) in
  let p := Pool 999 [Holding 7; Waiting 8] m in
  (Forall (λ t, is_finished t = true) (tasks p) ∧ value p = ceiling)
  ∨ ∃ p', step answers_all p p'.
Proof.
  intros m p.
  apply (semaphore_never_blocks_a_batch answers_all [7; 8] m p).
  eapply rtc_l; [| apply rtc_refl].
  exact (step_acquire _ 0 7 999 [Waiting 7; Waiting 8] m eq_refl).
Defined.

(** Three tasks, of which only the first is answered.  The third one
    goes through before the second has started, the first one after it,
    the second one last. *)
Lemma batch_outcome_is_that_of_the_sequence_witness :
  let m := boot (F := Z) (Self 3 [] 0 0) in
  let out9 := get_parcel_info only_seven 9 m in
  let out7 := get_parcel_info only_seven 7 out9.1 in
  let out8 := get_parcel_info only_seven 8 out7.1 in
  let p := Pool 1000 [Finished out7.2; Finished out8.2; Finished out9.2]
                out8.1 in
  ∃ rs, (gather (get_parcel_info only_seven <$> [7; 8; 9]) m).2 = Return rs
        ∧ tasks p = (λ r, Finished (Return r)) <$> rs
        ∧ self (shared p)
          = self (gather (get_parcel_info only_seven <$> [7; 8; 9]) m).1
        ∧ current_id (shared p) = current_id m
        ∧ batch_durations (shared p) = batch_durations m.
Proof.
  intros m out9 out7 out8 p.
  apply (batch_outcome_is_that_of_the_sequence only_seven [7; 8; 9] m p).
  - eapply rtc_l;
      [exact (step_acquire _ 0 7 999 [Waiting 7; Waiting 8; Waiting 9] m
                eq_refl) |].
    eapply rtc_l;
      [exact (step_acquire _ 2 9 998 [Holding 7; Waiting 8; Waiting 9] m
                eq_refl) |].
    eapply rtc_l;
      [exact (step_release only_seven 2 9 998
                [Holding 7; Waiting 8; Holding 9] m out9.1 out9.2
                eq_refl eq_refl) |].
    eapply rtc_l;
      [exact (step_acquire _ 1 8 998
                [Holding 7; Waiting 8; Finished out9.2] out9.1 eq_refl) |].
    eapply rtc_l;
      [exact (step_release only_seven 0 7 998
                [Holding 7; Holding 8; Finished out9.2] out9.1 out7.1 out7.2
                eq_refl eq_refl) |].
    eapply rtc_l; [| apply rtc_refl].
    exact (step_release only_seven 1 8 999
             [Finished out7.2; Holding 8; Finished out9.2] out7.1
             out8.1 out8.2 eq_refl eq_refl).
  - apply Forall_cons; split; [reflexivity |].
    apply Forall_cons; split; [reflexivity |].
    apply Forall_cons; split; [reflexivity |]. constructor.
Defined.

(** Two runs of [main].  Over an empty store, the first pass requests
    10000 identifiers and finds nothing; the estimate that the second pass
    computes from its duration is more than [timedelta] takes, and the
    [OverflowError] ends [scrape_range].  Over a store that lacks the last
    identifier only, one pass requests the identifiers up to 40160504 and
    the loop is left. *)
Lemma main_closes_and_stays_in_range_witness :
  (let run := scrape_range (F := Z) Main.start_id Main.end_id
                [clock_jump; calm] (boot (init None)) in
   ∃ acts t, Main.main None [clock_jump; calm] = Some (acts, t)
     ∧ acts = (Main.Ran <$> trace run.1)
              ++ [Main.PrintFatal OverflowError; Main.Close]
     ∧ gets_of (trace run.1) = seqZ 5625555 10000
     ∧ Forall (λ id, 5625555 ≤ id < 40160505) (gets_of (trace run.1)))
  ∧ (let run := scrape_range (F := Z) Main.start_id Main.end_id
                  [clock_jump] (boot (init (Some almost_complete))) in
     ∃ acts t, Main.main (Some almost_complete) [clock_jump] = Some (acts, t)
       ∧ acts = (Main.Ran <$> trace run.1) ++ [Main.Close]
       ∧ gets_of (trace run.1) = seqZ 40150505 10000
       ∧ (∀ e, Main.PrintFatal e ∉ acts)
       ∧ keys almost_complete ⊆ keys t).
Proof.
  split.
  - destruct (first_pass_finds_nothing (F := Z) Main.start_id Main.end_id
                clock_jump [calm] (boot (init None)))
      as (m1 & Hrun & Hcur & Hbs & Hdb & Hds & Hgets);
      [reflexivity | reflexivity | intros id; reflexivity |].
    assert (Hloop : scrape_loop Main.start_id Main.end_id [calm] m1
                    = (m1, Raise OverflowError)).
    { apply (estimate_overflow_is_fatal _ _ _ _ _ (10 ^ 12 * 3451)).
      - rewrite Hcur. reflexivity.
      - rewrite Hbs. discriminate.
      - rewrite Hds. discriminate.
      - rewrite Hds, Hcur, Hbs. reflexivity.
      - reflexivity. }
    pose proof (eq_trans Hrun Hloop) as Hfull.
    pose proof (main_raised None [clock_jump; calm] m1 OverflowError Hfull)
      as Hmain.
    pose proof (main_closes_and_stays_in_range (F := Z) None
                  [clock_jump; calm] _ _ Hmain) as Hthm.
    cbv zeta in Hthm |- *. rewrite Hfull in Hthm |- *. cbn [fst snd] in *.
    destruct Hthm as (_ & _ & _ & Hrange & _).
    eexists _, _. split; [exact Hmain |]. split; [reflexivity |].
    split; [exact Hgets | exact Hrange].
  - destruct (first_pass_finds_nothing (F := Z) Main.start_id Main.end_id
                clock_jump [] (boot (init (Some almost_complete))))
      as (m1 & Hrun & Hcur & Hbs & Hdb & Hds & Hgets);
      [reflexivity | reflexivity | intros id; reflexivity |].
    assert (Hloop : scrape_loop Main.start_id Main.end_id [] m1
                    = (m1, Return Exited)).
    { apply scrape_loop_exit. rewrite Hcur. discriminate. }
    pose proof (eq_trans Hrun Hloop) as Hfull.
    pose proof (main_exited (Some almost_complete) [clock_jump] m1 Hfull)
      as Hmain.
    pose proof (main_closes_and_stays_in_range (F := Z) (Some almost_complete)
                  [clock_jump] _ _ Hmain) as Hthm.
    cbv zeta in Hthm |- *. rewrite Hfull in Hthm |- *. cbn [fst snd] in *.
    destruct Hthm as (_ & Hfatal & _ & _ & _ & Hkeys).
    eexists _, _. split; [exact Hmain |]. split; [reflexivity |].
    split; [exact Hgets |]. split; [| exact Hkeys].
    intros e Hin. apply Hfatal in Hin. discriminate Hin.
Defined.
